(** * SaveAny-Bot: the transfer pipeline of [core/utils.go] and the
    configuration loader of package [config], embedded in Rocq.

    Go [int] and [int64] values are integers of [Z] with the 64-bit
    wrap-around written out where the code does arithmetic on them;
    [float64] is the kernel's binary64.  Everything outside the two source
    files (the storage backend, the Telegram API, the [os] package, the MIME
    sniffer) is an abstract environment whose calls are recorded in a trace. *)

From Stdlib Require Import ZArith Lia Bool List Ascii Floats Uint63.
From stdpp Require Import base option list strings pretty gmap.

Local Open Scope string_scope.
Local Open Scope list_scope.
Local Open Scope Z_scope.

(** ** Machine integers *)

Module Int64.

Definition min_int : Z := - 2 ^ 63.
Definition max_int : Z := 2 ^ 63 - 1.

(** The value of a 64-bit signed result after wrap-around. *)
Definition wrap (z : Z) : Z := (z + 2 ^ 63) mod 2 ^ 64 - 2 ^ 63.

Definition in_range (z : Z) : Prop := min_int <= z <= max_int.

End Int64.

(** [1024*1024*n], the byte count of [n] MiB. *)
Definition MiB (n : Z) : Z := 1024 * 1024 * n.

(** ** Errors *)

(** A Go [error]: a message, or [fmt.Errorf("<msg>%w", cause)]. *)
Inductive error : Type :=
| errorString (msg : string)
| wrapError (msg : string) (cause : error).

(** [errors.Unwrap]. *)
Definition Unwrap (e : error) : option error :=
  match e with
  | errorString _ => None
  | wrapError _ c => Some c
  end.

(** ** Package [config] *)

Module config.

Record userConfig := {
  ID : Z;
  UserStorages : list string;
  Blacklist : bool;
}.

Record tempConfig := {
  BasePath : string;
  CacheTTL : Z;
}.

(** [Admins] is a slice: [None] is [nil]. *)
Record telegramConfig := {
  Admins : option (list Z);
}.

(** A storage configuration, seen through its [GetName] and [GetType]. *)
Record StorageConfig := {
  GetName : string;
  GetType : string;
}.

(** The fields of [Config] that the code below reads.  [Threads] is read by
    [getTaskThreads] as [config.Cfg.Threads]. *)
Record Config := {
  Workers : Z;
  Retry : Z;
  Threads : Z;
  Users : list userConfig;
  Temp : tempConfig;
  Telegram : telegramConfig;
  Storages : list StorageConfig;
  (** [None] is the zero value [deprecatedStorageConfig{}]; the legacy
      settings themselves are opaque here. *)
  DeprecatedStorage : option string;
}.

End config.

(** ** Package [types]: the task record *)

Module types.

Record File := {
  Location : Z;
  FileSize : Z;
  FileName : string;
}.

Record Task := {
  TaskFile : File;
  StorageName : string;
  StoragePath : string;
  StartTime : Z;
  ReplyChatID : Z;
  ReplyMessageID : Z;
}.

(** Modelled from the spec: the method [Task.FileName()] is declared in
    package [types], whose source is not among the files embedded here; the
    spec calls it the task's declared display name, kept in memory with the
    file descriptor. *)
Definition Task_FileName (t : Task) : string := FileName (TaskFile t).

End types.

Import config types.

(** ** The environment and the effect monad *)

Inductive level := Trace | Info | Error.

Inductive logArg :=
| ArgErr (e : error)
| ArgStr (s : string)
| ArgTask (t : Task)
| ArgFloat (f : float).

(** What [UploadGetFile] hands back: an error, a [*tg.UploadFile] with
    its bytes, or a value of another class (named by its [%T]). *)
Inductive uploadResult :=
| UploadErr (e : error)
| UploadFile (bytes : list Byte.byte)
| UploadOther (typeName : string).

(** Calls that leave the two source files, in the order they happen. *)
Inductive event :=
| EvSave (localFilePath storagePath : string) (r : option error)
| EvUploadGetFile (location offset limit : Z)
| EvCreate (name : string) (r : option error)
| EvWriteFile (name : string) (data : list Byte.byte) (r : option error)
| EvRemove (name : string) (r : option error)
| EvRmFileAfter (name : string) (nanoseconds : Z)
| EvDetectFile (name : string) (r : string + error)
| EvFileWriteAt (name : string) (len off n : Z) (r : option error)
| EvCallback (bytesRead contentLength : Z)
| EvEditMessage (chat msgID bytesRead : Z) (progress : float)
| EvLog (lvl : level) (format : string) (args : list logArg).

(** [storage.Storage]: the one method the pipeline calls. *)
Class Storage (E : Type) := Save : string -> string -> E -> option error * E.

(** The Telegram client, package [os] and the MIME sniffer. *)
Class External (E : Type) := {
  UploadGetFile : Z -> Z -> Z -> E -> uploadResult * E;
  os_Create : string -> E -> option error * E;
  os_WriteFile : string -> list Byte.byte -> E -> option error * E;
  os_Remove : string -> E -> option error * E;
  file_WriteAt : string -> list Byte.byte -> Z -> E -> (Z * option error) * E;
  mimetype_DetectFile : string -> E -> (string + error) * E;
}.

Section Effects.

Context {E : Type}.

Record World := {
  env : E;
  trace : list event;
}.

(** A Go call returns or panics; [OutOfFuel] is the model's own outcome
    for a loop cut off by its iteration bound. *)
Inductive result (A : Type) :=
| Ret (a : A)
| Panic (msg : string)
| OutOfFuel.
Arguments Ret {A} a.
Arguments Panic {A} msg.
Arguments OutOfFuel {A}.

Definition M (A : Type) : Type := World -> result A * World.

Definition ret {A} (a : A) : M A := fun w => (Ret a, w).

Definition bind {A B} (m : M A) (k : A -> M B) : M B :=
  fun w => match m w with
           | (Ret a, w') => k a w'
           | (Panic msg, w') => (Panic msg, w')
           | (OutOfFuel, w') => (OutOfFuel, w')
           end.

Definition panic {A} (msg : string) : M A := fun w => (Panic msg, w).

Definition outOfFuel {A} : M A := fun w => (OutOfFuel, w).

(** Record one event. *)
Definition emit (e : event) : M unit :=
  fun w => (Ret tt, {| env := env w; trace := trace w ++ [e] |}).

(** Run an environment call and hand its answer on. *)
Definition external {A} (f : E -> A * E) : M A :=
  fun w => let '(a, e') := f (env w) in
           (Ret a, {| env := e'; trace := trace w |}).

End Effects.

Arguments World : clear implicits.
Arguments M : clear implicits.
Arguments Ret {A} a.
Arguments Panic {A} msg.
Arguments OutOfFuel {A}.

(** The monad structure, so that code reads [x ← call; rest]. *)
#[export] Instance M_ret {E} : MRet (M E) := fun A a => ret a.
#[export] Instance M_bind {E} : MBind (M E) := fun A B k m => bind m k.

Definition logf {E} (lvl : level) (format : string) (args : list logArg) : M E unit :=
  emit (EvLog lvl format args).

(** How many [Save] calls a trace holds. *)
Definition isSave (e : event) : bool :=
  match e with EvSave _ _ _ => true | _ => false end.

Definition saveCalls (tr : list event) : nat := length (filter isSave tr).

(** ** [saveFileWithRetry] *)

Section SaveRetrier.

Context {E : Type} `{!Storage E}.

(** [taskStorage.Save(task.Ctx, localFilePath, task.StoragePath)]. *)
Definition callSave (localFilePath storagePath : string) : M E (option error) :=
  r ← external (Save localFilePath storagePath);
  emit (EvSave localFilePath storagePath r);;
  mret r.

(** The loop [for i := 0; i <= config.Cfg.Retry; i++] from counter value
    [i] on; [fuel] bounds the iterations still allowed. *)
Fixpoint retryLoop (cfg : Config) (task : Task) (localFilePath : string)
    (fuel : nat) (i : Z) : M E (option error) :=
  match fuel with
  | O => outOfFuel
  | S fuel' =>
      if i <=? Retry cfg then
        r ← callSave localFilePath (StoragePath task);
        match r with
        | Some err =>
            if i =? Retry cfg then
              mret (Some (wrapError "failed to save file: " err))
            else
              logf Error "Failed to save file: %s, retrying..." [ArgErr err];;
              retryLoop cfg task localFilePath fuel' (Int64.wrap (i + 1))
        | None => mret None
        end
      else mret None
  end.

(** The counter runs over [0 .. Retry], so [Retry + 2] iterations are
    enough for the loop to leave through one of its [return]s. *)
Definition saveFileWithRetry (cfg : Config) (task : Task)
    (localFilePath : string) : M E (option error) :=
  retryLoop cfg task localFilePath (Z.to_nat (Retry cfg + 1) + 1) 0.

End SaveRetrier.

(** ** [cleanCacheFile] and [processPhoto] *)

Section Transfer.

Context {E : Type} `{!Storage E} `{!External E}.

(** [time.Second], in nanoseconds. *)
Definition Second : Z := 1000000000.

(** Modelled from the spec: [common.RmFileAfter] lives in package
    [common], whose source is not among the files embedded here.  The
    spec: "schedule deletion
    after that many seconds elapse (non-blocking; the caller does not
    wait)".  The model records the timer and touches nothing else. *)
Definition RmFileAfter (name : string) (d : Z) : M E unit :=
  emit (EvRmFileAfter name d).

Definition callRemove (name : string) : M E (option error) :=
  r ← external (os_Remove name);
  emit (EvRemove name r);;
  mret r.

Definition cleanCacheFile (cfg : Config) (destPath : string) : M E unit :=
  if 0 <? CacheTTL (Temp cfg) then
    RmFileAfter destPath (Int64.wrap (CacheTTL (Temp cfg) * Second))
  else
    r ← callRemove destPath;
    match r with
    | Some err => logf Error "Failed to purge file: %s" [ArgErr err]
    | None => mret tt
    end.

(** [defer d] in front of [body]: [d] runs when [body] returns or panics,
    and the value [body] returned is the function's value. *)
Definition defer {A} (d : M E unit) (body : M E A) : M E A :=
  fun w =>
    match body w with
    | (OutOfFuel, w') => (OutOfFuel, w')
    | (r, w') =>
        match d w' with
        | (Ret _, w'') => (r, w'')
        | (Panic msg, w'') => (Panic msg, w'')
        | (OutOfFuel, w'') => (OutOfFuel, w'')
        end
    end.

Definition callUploadGetFile (location offset limit : Z) : M E uploadResult :=
  r ← external (UploadGetFile location offset limit);
  emit (EvUploadGetFile location offset limit);;
  mret r.

Definition callWriteFile (name : string) (data : list Byte.byte) : M E (option error) :=
  r ← external (os_WriteFile name data);
  emit (EvWriteFile name data r);;
  mret r.

Definition processPhoto (cfg : Config) (task : Task) (cachePath : string)
    : M E (option error) :=
  res ← callUploadGetFile (Location (TaskFile task)) 0 (1024 * 1024);
  match res with
  | UploadErr err => mret (Some (wrapError "failed to get file: " err))
  | UploadOther typeName => mret (Some (errorString ("unexpected type " +:+ typeName)))
  | UploadFile bytes =>
      r ← callWriteFile cachePath bytes;
      match r with
      | Some err => mret (Some (wrapError "failed to write file: " err))
      | None =>
          defer (cleanCacheFile cfg cachePath)
            (logf Info "Downloaded file: %s" [ArgStr cachePath];;
             saveFileWithRetry cfg task cachePath)
      end
  end.

End Transfer.

(** ** The parallelism policy *)

Definition getProgressUpdateCount (fileSize : Z) : Z :=
  if MiB 1000 <? fileSize then 50
  else if MiB 500 <? fileSize then 20
  else if MiB 200 <? fileSize then 10
  else 5.

(** Go's [/] on integers truncates toward zero: [Z.quot]. *)
Definition getTaskThreads (cfg : Config) (fileSize : Z) : Z :=
  if MiB 100 <? fileSize then Threads cfg
  else if MiB 50 <? fileSize then Threads cfg ÷ 2
  else 1.

(** ** Floating point: [float64(x)], [int(f)] *)

Module Float64.

(** [float64(z)] for an [int64]: the nearest binary64, ties to even.
    [of_uint63] converts a 63-bit magnitude; [2^63] itself is [2 * 2^62]. *)
Definition of_int64 (z : Z) : float :=
  let a := Z.abs z in
  let m :=
    if a <? 2 ^ 63 then PrimFloat.of_uint63 (Uint63.of_Z a)
    else (PrimFloat.of_uint63 (Uint63.of_Z (a ÷ 2)) * 2)%float in
  if z <? 0 then (- m)%float else m.

(** The integer a finite float truncates to, toward zero. *)
Definition truncate (f : float) : option Z :=
  match Prim2SF f with
  | S754_zero _ => Some 0
  | S754_finite sign m e =>
      let v := if 0 <=? e then Z.shiftl (Z.pos m) e
               else Z.shiftr (Z.pos m) (- e) in
      Some (if sign then - v else v)
  | S754_infinity _ | S754_nan => None
  end.

(** [int(f)]: truncation when the result fits a 64-bit [int]; otherwise
    (overflow, infinities, NaN) Go leaves the value to the platform, here
    [unrepresentable f]. *)
Definition to_int (unrepresentable : float -> Z) (f : float) : Z :=
  match truncate f with
  | Some z =>
      if (Int64.min_int <=? z) && (z <=? Int64.max_int) then z
      else unrepresentable f
  | None => unrepresentable f
  end.

End Float64.

(** ** [buildProgressCallback] *)

Section ProgressReporter.

Context {E : Type}.

(** The platform's answer for [int(f)] when [f] does not fit. *)
Variable unrepresentable : float -> Z.

(** [float64(bytesRead) / float64(contentLength) * 100]. *)
Definition progressOf (bytesRead contentLength : Z) : float :=
  (Float64.of_int64 bytesRead / Float64.of_int64 contentLength * 100)%float.

Definition progressIntOf (bytesRead contentLength : Z) : Z :=
  Float64.to_int unrepresentable (progressOf bytesRead contentLength).

(** [x / y] on [int]s: a run-time panic when [y] is zero. *)
Definition intDiv (x y : Z) : M E Z :=
  if y =? 0 then panic "runtime error: integer divide by zero"
  else mret (Int64.wrap (x ÷ y)).

(** [x % y] on [int]s; the sign follows [x]. *)
Definition intRem (x y : Z) : M E Z :=
  if y =? 0 then panic "runtime error: integer divide by zero"
  else mret (Z.rem x y).

(** The closure [buildProgressCallback(ctx, task, updateCount)] returns.
    [buildProgressMessageEntity] always yields a text (the plain one when
    styling fails), so the branch that passes the guard always reaches
    [ctx.EditMessage]; the message is kept as the numbers it is built from. *)
Definition buildProgressCallback (task : Task) (updateCount : Z)
    : Z -> Z -> M E unit :=
  fun bytesRead contentLength =>
    let progress := progressOf bytesRead contentLength in
    logf Trace "Downloading %s: %.2f%%" [ArgTask task; ArgFloat progress];;
    let progressInt := Float64.to_int unrepresentable progress in
    if FileSize (TaskFile task) <? MiB 50 then mret tt
    else if progressInt =? 0 then mret tt
    else
      step ← intDiv 100 updateCount;
      r ← intRem progressInt step;
      if negb (r =? 0) then mret tt
      else emit (EvEditMessage (ReplyChatID task) (ReplyMessageID task)
                   bytesRead progress).

(** The guard of the closure, as a proposition: the file is of 50 MiB at
    least, the truncated percentage is not zero, and it is a multiple of
    [100 / updateCount]. *)
Definition due (task : Task) (updateCount bytesRead contentLength : Z) : Prop :=
  MiB 50 <= FileSize (TaskFile task) /\
  progressIntOf bytesRead contentLength <> 0 /\
  (100 ÷ updateCount | progressIntOf bytesRead contentLength).

End ProgressReporter.

(** ** [fixTaskFileExt] *)

(** [path.Ext]: walk back from the last byte until a ['/']; the first
    ['.'] met starts the extension.  [before] is [path[:i+1]] reversed and
    [after] is [path[i+1:]]. *)
Fixpoint extFrom (before : list ascii) (after : string) : string :=
  match before with
  | [] => ""
  | c :: before' =>
      if Ascii.eqb c "/" then ""
      else if Ascii.eqb c "." then String c after
      else extFrom before' (String c after)
  end.

Definition path_Ext (path : string) : string :=
  extFrom (rev (String.list_ascii_of_string path)) "".

Section ExtensionFixer.

Context {E : Type} `{!External E}.

Definition callDetectFile (name : string) : M E (string + error) :=
  r ← external (mimetype_DetectFile name);
  emit (EvDetectFile name r);;
  mret r.

(** The task is behind a pointer; the function's value here is the task
    as the caller sees it afterwards.  [mimetype_DetectFile] answers with
    [mimeType.Extension()] or with the error. *)
Definition fixTaskFileExt (task : Task) (localFilePath : string) : M E Task :=
  if String.eqb (path_Ext (Task_FileName task)) "" then
    r ← callDetectFile localFilePath;
    match r with
    | inr err =>
        logf Error "Failed to detect mime type: %s" [ArgErr err];;
        mret task
    | inl extension =>
        let task1 :=
          {| TaskFile := {| Location := Location (TaskFile task);
                            FileSize := FileSize (TaskFile task);
                            FileName := Task_FileName task +:+ extension |};
             StorageName := StorageName task;
             StoragePath := StoragePath task;
             StartTime := StartTime task;
             ReplyChatID := ReplyChatID task;
             ReplyMessageID := ReplyMessageID task |} in
        mret {| TaskFile := TaskFile task1;
                StorageName := StorageName task1;
                StoragePath := StoragePath task1 +:+ extension;
                StartTime := StartTime task1;
                ReplyChatID := ReplyChatID task1;
                ReplyMessageID := ReplyMessageID task1 |}
    end
  else mret task.

End ExtensionFixer.

(** ** [TaskLocalFile] *)

Section StagingFile.

Context {E : Type} `{!External E}.

Record TaskLocalFile := {
  file : string;
  size : Z;
  done : Z;
  progressCallback : option (Z -> Z -> M E unit);
  callbackTimes : Z;
  nextCallbackAt : Z;
  callbackInterval : Z;
}.

Definition set_done (v : Z) (t : TaskLocalFile) : TaskLocalFile :=
  {| file := file t; size := size t; done := v;
     progressCallback := progressCallback t;
     callbackTimes := callbackTimes t;
     nextCallbackAt := nextCallbackAt t;
     callbackInterval := callbackInterval t |}.

Definition set_nextCallbackAt (v : Z) (t : TaskLocalFile) : TaskLocalFile :=
  {| file := file t; size := size t; done := done t;
     progressCallback := progressCallback t;
     callbackTimes := callbackTimes t;
     nextCallbackAt := v;
     callbackInterval := callbackInterval t |}.

(** [t.file.WriteAt(p, off)] on the handle of the file named [name]. *)
Definition callFileWriteAt (name : string) (p : list Byte.byte) (off : Z)
    : M E (Z * option error) :=
  r ← external (file_WriteAt name p off);
  emit (EvFileWriteAt name (Z.of_nat (length p)) off (fst r) (snd r));;
  mret r.

(** [t.progressCallback(bytesRead, contentLength)]; the call is noted in
    the trace before the callback's own effects. *)
Definition invoke (cb : Z -> Z -> M E unit) (bytesRead contentLength : Z)
    : M E unit :=
  emit (EvCallback bytesRead contentLength);;
  cb bytesRead contentLength.

(** The receiver is a pointer: the value is what [WriteAt] returns together
    with the [TaskLocalFile] as it stands afterwards. *)
Definition WriteAt (t : TaskLocalFile) (p : list Byte.byte) (off : Z)
    : M E ((Z * option error) * TaskLocalFile) :=
  r ← callFileWriteAt (file t) p off;
  match snd r with
  | Some err => mret ((fst r, Some err), t)
  | None =>
      let n := fst r in
      let t1 := set_done (Int64.wrap (done t + n)) t in
      match progressCallback t1 with
      | Some cb =>
          if nextCallbackAt t1 <=? done t1 then
            invoke cb (done t1) (size t1);;
            mret ((n, None),
                  set_nextCallbackAt
                    (Int64.wrap (nextCallbackAt t1 + callbackInterval t1)) t1)
          else mret ((n, None), t1)
      | None => mret ((n, None), t1)
      end
  end.

Definition callCreate (name : string) : M E (option error) :=
  r ← external (os_Create name);
  emit (EvCreate name r);;
  mret r.

Definition NewTaskLocalFile (filePath : string) (fileSize : Z)
    (progressCallback : option (Z -> Z -> M E unit))
    : M E (TaskLocalFile + error) :=
  r ← callCreate filePath;
  match r with
  | Some err => mret (inr (wrapError "failed to open file: " err))
  | None =>
      let callbackInterval := fileSize ÷ 100 in
      let callbackInterval :=
        if callbackInterval =? 0 then 1 else callbackInterval in
      mret (inl {| file := filePath;
                   size := fileSize;
                   done := 0;
                   progressCallback := progressCallback;
                   callbackTimes := 100;
                   nextCallbackAt := callbackInterval;
                   callbackInterval := callbackInterval |})
  end.

(** A run of [WriteAt] calls, one per [(p, off)], on the same file. *)
Fixpoint writeAll (t : TaskLocalFile) (ws : list (list Byte.byte * Z))
    : M E TaskLocalFile :=
  match ws with
  | [] => mret t
  | (p, off) :: ws' =>
      r ← WriteAt t p off;
      writeAll (snd r) ws'
  end.

(** The record of the positional write [WriteAt] starts with. *)
Definition writeEvent (t : TaskLocalFile) (p : list Byte.byte) (off : Z)
    (w : World E) : event :=
  let answer := fst (file_WriteAt (file t) p off (env w)) in
  EvFileWriteAt (file t) (Z.of_nat (length p)) off (fst answer) (snd answer).

End StagingFile.

Arguments TaskLocalFile : clear implicits.

(** How many callback invocations a trace holds. *)
Definition isCallback (e : event) : bool :=
  match e with EvCallback _ _ => true | _ => false end.

Definition callbackCalls (tr : list event) : nat := length (filter isCallback tr).

(** ** [config.Init] *)

Section Loader.

(** What viper answers during one [Init].  The [SetDefault] calls
    ([workers] and [retry] default to 3, [temp.cache_ttl] to 3600, ...) only
    shape what [Unmarshal] decodes, so they are part of its answer. *)
Inductive writeConfigResult :=
| WriteOk
| ConfigFileAlreadyExistsError
| WriteFailed (err : error).

Record Viper := {
  SafeWriteConfigAs : writeConfigResult;
  ReadInConfig : option error;
  Unmarshal : Config + error;
  LoadStorageConfigs : list StorageConfig + error;
}.

(** [transformDeprecatedStorageConfig] is declared elsewhere in package
    [config]; it turns the legacy storage settings into entries of
    [Cfg.Storages], and is taken as a parameter: from the legacy settings
    and the current list to the new list. *)
Variable transformDeprecatedStorageConfig :
  string -> list StorageConfig -> list StorageConfig.

(** [Init] returns an error value, or the process ends in [os.Exit]. *)
Inductive initOutcome :=
| InitReturn (err : option error) (Cfg : option Config)
| InitExit (code : Z).

Definition set_Users (v : list userConfig) (c : Config) : Config :=
  {| Workers := Workers c; Retry := Retry c; Threads := Threads c;
     Users := v; Temp := Temp c; Telegram := Telegram c;
     Storages := Storages c; DeprecatedStorage := DeprecatedStorage c |}.

Definition set_Storages (v : list StorageConfig) (c : Config) : Config :=
  {| Workers := Workers c; Retry := Retry c; Threads := Threads c;
     Users := Users c; Temp := Temp c; Telegram := Telegram c;
     Storages := v; DeprecatedStorage := DeprecatedStorage c |}.

Definition adminUser (admin : Z) : userConfig :=
  {| ID := admin; UserStorages := []; Blacklist := true |}.

(** The loop over [Cfg.Storages] with the map [storageNames]: the first
    name met twice. *)
Fixpoint duplicateName (storageNames : gset string) (l : list StorageConfig)
    : option string :=
  match l with
  | [] => None
  | storage :: l' =>
      if decide (GetName storage ∈ storageNames) then Some (GetName storage)
      else duplicateName ({[GetName storage]} ∪ storageNames) l'
  end.

(** [Cfg0] is the package variable [Cfg] before the call. *)
Definition Init (v : Viper) (Cfg0 : option Config) : initOutcome :=
  match SafeWriteConfigAs v with
  | WriteFailed err =>
      InitReturn (Some (wrapError "error saving default config: " err)) Cfg0
  | WriteOk | ConfigFileAlreadyExistsError =>
      match ReadInConfig v with
      | Some _ => InitExit 1
      | None =>
          match Unmarshal v with
          | inr _ => InitExit 1
          | inl c =>
              let c :=
                match Admins (Telegram c) with
                | Some admins => set_Users (Users c ++ map adminUser admins) c
                | None => c
                end in
              match LoadStorageConfigs v with
              | inr err =>
                  InitReturn
                    (Some (wrapError "error loading storage configs: " err))
                    (Some c)
              | inl storagesConfig =>
                  let c := set_Storages storagesConfig c in
                  let c :=
                    match DeprecatedStorage c with
                    | Some legacy =>
                        set_Storages
                          (transformDeprecatedStorageConfig legacy (Storages c)) c
                    | None => c
                    end in
                  match duplicateName ∅ (Storages c) with
                  | Some name =>
                      InitReturn
                        (Some (errorString ("重复的存储名: " +:+ name))) (Some c)
                  | None =>
                      if (Workers c <? 1) || (Retry c <? 1) then
                        InitReturn
                          (Some (errorString
                             ("workers 和 retry 必须大于 0, 当前值: workers="
                              +:+ pretty (Workers c) +:+ ", retry="
                              +:+ pretty (Retry c))))
                          (Some c)
                      else InitReturn None (Some c)
                  end
              end
          end
      end
  end.

(** The configuration [Init] checks at its end: the decoded one with the
    legacy admins added as users and the storage list filled in. *)
Definition checkedConfig (c : Config) (storagesConfig : list StorageConfig)
    : Config :=
  let c :=
    match Admins (Telegram c) with
    | Some admins => set_Users (Users c ++ map adminUser admins) c
    | None => c
    end in
  let c := set_Storages storagesConfig c in
  match DeprecatedStorage c with
  | Some legacy =>
      set_Storages (transformDeprecatedStorageConfig legacy (Storages c)) c
  | None => c
  end.

End Loader.

(** ** Reading a run *)

(** The events recorded between world [w0] and the later world [w]. *)
Definition since {E} (w0 w : World E) : list event :=
  drop (length (trace w0)) (trace w).

Definition isLog (e : event) : bool :=
  match e with EvLog _ _ _ => true | _ => false end.

Definition logCalls (tr : list event) : nat := length (filter isLog tr).

Section Backends.

Context {E : Type} `{!Storage E}.

Variables localFilePath storagePath : string.

(** The answer to call number [n] (from 0) of a run of [Save] calls that
    starts in state [e]. *)
Fixpoint attempt (n : nat) (e : E) : option error :=
  match n with
  | O => fst (Save localFilePath storagePath e)
  | S n' => attempt n' (snd (Save localFilePath storagePath e))
  end.

(** A backend that fails exactly [k] times and then succeeds. *)
Fixpoint failsThenSucceeds (k : nat) (e : E) : Prop :=
  match k with
  | O => fst (Save localFilePath storagePath e) = None
  | S k' =>
      fst (Save localFilePath storagePath e) <> None /\
      failsThenSucceeds k' (snd (Save localFilePath storagePath e))
  end.

End Backends.

(** ** A scripted environment, for running the code on examples *)

Record Stub := {
  saves : list (option error);
  upload : uploadResult;
  writeFile : option error;
  remove : option error;
  create : option error;
  writeAt : option error;
  detect : string + error;
}.

Definition set_saves (v : list (option error)) (s : Stub) : Stub :=
  {| saves := v; upload := upload s; writeFile := writeFile s;
     remove := remove s; create := create s; writeAt := writeAt s;
     detect := detect s |}.

(** [Save] answers from the script, and succeeds once it is used up. *)
#[export] Instance Stub_Storage : Storage Stub :=
  fun _ _ s =>
    match saves s with
    | [] => (None, s)
    | r :: rest => (r, set_saves rest s)
    end.

(** A positional write takes all the bytes unless [writeAt] holds an
    error, in which case it takes none. *)
#[export] Instance Stub_External : External Stub := {|
  UploadGetFile := fun _ _ _ s => (upload s, s);
  os_Create := fun _ s => (create s, s);
  os_WriteFile := fun _ _ s => (writeFile s, s);
  os_Remove := fun _ s => (remove s, s);
  file_WriteAt := fun _ p _ s =>
    match writeAt s with
    | Some err => ((0, Some err), s)
    | None => ((Z.of_nat (length p), None), s)
    end;
  mimetype_DetectFile := fun _ s => (detect s, s);
|}.

Definition stub0 : Stub :=
  {| saves := []; upload := UploadFile []; writeFile := None;
     remove := None; create := None; writeAt := None;
     detect := inl ".bin" |}.

Definition world0 (s : Stub) : World Stub := {| env := s; trace := [] |}.

Definition cfg0 : Config :=
  {| Workers := 3; Retry := 3; Threads := 4; Users := [];
     Temp := {| BasePath := "cache/"; CacheTTL := 3600 |};
     Telegram := {| Admins := None |};
     Storages := []; DeprecatedStorage := None |}.

Definition set_Retry (v : Z) (c : Config) : Config :=
  {| Workers := Workers c; Retry := v; Threads := Threads c;
     Users := Users c; Temp := Temp c; Telegram := Telegram c;
     Storages := Storages c; DeprecatedStorage := DeprecatedStorage c |}.

Definition set_Threads (v : Z) (c : Config) : Config :=
  {| Workers := Workers c; Retry := Retry c; Threads := v;
     Users := Users c; Temp := Temp c; Telegram := Telegram c;
     Storages := Storages c; DeprecatedStorage := DeprecatedStorage c |}.

Definition set_CacheTTL (v : Z) (c : Config) : Config :=
  {| Workers := Workers c; Retry := Retry c; Threads := Threads c;
     Users := Users c;
     Temp := {| BasePath := BasePath (Temp c); CacheTTL := v |};
     Telegram := Telegram c;
     Storages := Storages c; DeprecatedStorage := DeprecatedStorage c |}.

Definition task0 : Task :=
  {| TaskFile := {| Location := 1; FileSize := MiB 10; FileName := "photo" |};
     StorageName := "local"; StoragePath := "/data/photo";
     StartTime := 0; ReplyChatID := 7; ReplyMessageID := 42 |}.

Definition boom : error := errorString "boom".

(** Reclaiming [name]: a timer set on it, or a removal asked of [os]. *)
Definition isReclaim (name : string) (e : event) : bool :=
  match e with
  | EvRmFileAfter n _ | EvRemove n _ => String.eqb n name
  | _ => false
  end.

Definition reclaims (name : string) (tr : list event) : nat :=
  length (filter (isReclaim name) tr).

Definition isEdit (e : event) : bool :=
  match e with EvEditMessage _ _ _ _ => true | _ => false end.

(** How many progress updates a trace holds. *)
Definition edits (tr : list event) : nat := length (filter isEdit tr).

Definition isFileWrite (e : event) : bool :=
  match e with EvFileWriteAt _ _ _ _ _ => true | _ => false end.

Definition writeCalls (tr : list event) : nat := length (filter isFileWrite tr).

(** The bytes the positional writes of a trace report as written. *)
Fixpoint written (tr : list event) : Z :=
  match tr with
  | [] => 0
  | EvFileWriteAt _ _ _ n _ :: tr' => n + written tr'
  | _ :: tr' => written tr'
  end.

(** A positional write succeeded: no error, and a byte count that is
    not negative. *)
Definition okWrite (e : event) : Prop :=
  match e with
  | EvFileWriteAt _ _ _ n r => r = None /\ 0 <= n
  | _ => True
  end.

(** Every positional write of the trace took at most [limit] bytes. *)
Definition writeWithin (limit : Z) (e : event) : Prop :=
  match e with
  | EvFileWriteAt _ _ _ n _ => n <= limit
  | _ => True
  end.

(** A callback that returns, and whose own records in the trace are
    neither positional writes nor callback invocations. *)
Definition wellBehaved {E} (cb : Z -> Z -> M E unit) : Prop :=
  forall bytesRead contentLength (w : World E),
    exists e' evs,
      cb bytesRead contentLength w
        = (Ret tt, {| env := e'; trace := trace w ++ evs |}) /\
      Forall (fun ev => isCallback ev = false /\ isFileWrite ev = false) evs.

(** The callback called after each of a run of byte increments, with the
    running total. *)
Fixpoint feed {E} (cb : Z -> Z -> M E unit) (contentLength bytesRead : Z)
    (increments : list Z) : M E unit :=
  match increments with
  | [] => mret tt
  | n :: rest =>
      cb (bytesRead + n) contentLength;;
      feed cb contentLength (bytesRead + n) rest
  end.

(** A callback that does nothing, and a staging file of 1000 declared
    bytes opened with it on the scripted environment. *)
Definition silent : Z -> Z -> M Stub unit := fun _ _ => mret tt.

Definition opened1000 : World Stub :=
  {| env := stub0; trace := [EvCreate "cache/video" None] |}.

Definition file1000 : TaskLocalFile Stub :=
  {| file := "cache/video"; size := 1000; done := 0;
     progressCallback := Some silent; callbackTimes := 100;
     nextCallbackAt := 10; callbackInterval := 10 |}.

Definition zeros (n : nat) : list Byte.byte := replicate n Byte.x00.

(** ** [config.ReloadConfig] *)

(** What viper answers during one [ReloadConfig]: [WriteConfig],
    [ReadInConfig], and [Unmarshal(Cfg)], which decodes into the struct
    behind the package variable [Cfg] and so hands back that variable's
    new content together with its error. *)
Record ViperReload := {
  Reload_WriteConfig : option error;
  Reload_ReadInConfig : option error;
  Reload_Unmarshal : option Config -> option Config * option error;
}.

(** The value is the error returned and the package variable [Cfg]
    afterwards. *)
Definition ReloadConfig (v : ViperReload) (Cfg : option Config)
    : option error * option Config :=
  match Reload_WriteConfig v with
  | Some err => (Some err, Cfg)
  | None =>
      match Reload_ReadInConfig v with
      | Some err => (Some err, Cfg)
      | None =>
          match Reload_Unmarshal v Cfg with
          | (Cfg', Some err) => (Some err, Cfg')
          | (Cfg', None) => (None, Cfg')
          end
      end
  end.

(** ** More ways to read a run *)

(** The bytes of the positional writes that returned no error. *)
Fixpoint writtenOk (tr : list event) : Z :=
  match tr with
  | [] => 0
  | EvFileWriteAt _ _ _ n None :: tr' => n + writtenOk tr'
  | _ :: tr' => writtenOk tr'
  end.

(** No positional write of the trace reports a negative count. *)
Definition countNonneg (e : event) : Prop :=
  match e with
  | EvFileWriteAt _ _ _ n _ => 0 <= n
  | _ => True
  end.

(** The arguments of the callback invocations, in order. *)
Fixpoint callbackArgs (tr : list event) : list (Z * Z) :=
  match tr with
  | [] => []
  | EvCallback bytesRead contentLength :: tr' =>
      (bytesRead, contentLength) :: callbackArgs tr'
  | _ :: tr' => callbackArgs tr'
  end.

(** A callback that returns, leaving in the trace only records that
    satisfy [Q]. *)
Definition confined {E} (Q : event -> Prop) (cb : Z -> Z -> M E unit) : Prop :=
  forall bytesRead contentLength (w : World E),
    exists e' evs,
      cb bytesRead contentLength w
        = (Ret tt, {| env := e'; trace := trace w ++ evs |}) /\
      Forall Q evs.

(** ** The percentage in exact arithmetic *)

(** Following the specification's words, not the code: the
    integer-truncated percentage [floor(bytesRead / contentLength * 100)],
    the quotient taken exactly. *)
Definition exactPercent (bytesRead contentLength : Z) : Z :=
  bytesRead * 100 / contentLength.

(** Whether the percentage the code computes for [bytesRead] of
    [contentLength], truncated, is [exactPercent] or one below it. *)
Definition nearExact (contentLength bytesRead : Z) : bool :=
  match Float64.truncate (progressOf bytesRead contentLength) with
  | Some p =>
      (exactPercent bytesRead contentLength - 1 <=? p)
      && (p <=? exactPercent bytesRead contentLength)
  | None => false
  end.

(** The same for every [contentLength] from 1 to [n] and every
    [bytesRead] from 0 to [contentLength]. *)
Definition nearExactUpTo (n : Z) : bool :=
  forallb (fun contentLength =>
             forallb (nearExact contentLength) (seqZ 0 (contentLength + 1)))
    (seqZ 1 n).

(** * Properties *)

(** ** Machine integers *)

Lemma wrap_in_range z : Int64.in_range z -> Int64.wrap z = z.
Proof.
  unfold Int64.in_range, Int64.wrap, Int64.min_int, Int64.max_int. intros Hz.
  rewrite Z.mod_small; lia.
Qed.

Lemma wrap_range z : Int64.in_range (Int64.wrap z).
Proof.
  unfold Int64.in_range, Int64.wrap, Int64.min_int, Int64.max_int.
  pose proof (Z.mod_pos_bound (z + 2 ^ 63) (2 ^ 64) ltac:(lia)). lia.
Qed.

(** ** Traces *)

Lemma since_app {E} (w0 w : World E) (tr : list event) :
  trace w = trace w0 ++ tr -> since w0 w = tr.
Proof. unfold since. intros ->. by rewrite drop_app_length. Qed.

Lemma saveCalls_app (tr1 tr2 : list event) :
  saveCalls (tr1 ++ tr2) = (saveCalls tr1 + saveCalls tr2)%nat.
Proof. unfold saveCalls. by rewrite filter_app, length_app. Qed.

Lemma logCalls_app (tr1 tr2 : list event) :
  logCalls (tr1 ++ tr2) = (logCalls tr1 + logCalls tr2)%nat.
Proof. unfold logCalls. by rewrite filter_app, length_app. Qed.

Lemma callbackCalls_app (tr1 tr2 : list event) :
  callbackCalls (tr1 ++ tr2) = (callbackCalls tr1 + callbackCalls tr2)%nat.
Proof. unfold callbackCalls. by rewrite filter_app, length_app. Qed.

(** Unfold the monad's plumbing. *)
Ltac run :=
  unfold mbind, mret, M_bind, M_ret, bind, ret, logf, emit, external,
    panic, outOfFuel; simpl.

(** ** [saveFileWithRetry] *)

Section SaveRetrierFacts.

Context {E : Type} `{!Storage E}.

Variables (cfg : Config) (task : Task) (localFilePath : string).

Let storagePath := StoragePath task.
Let failureLog (err : error) : event :=
  EvLog Error "Failed to save file: %s, retrying..." [ArgErr err].

(** A failed attempt before the last one is logged and the loop goes on. *)
Lemma retryLoop_retry fuel i (w : World E) err e' :
  0 <= i < Retry cfg -> Int64.in_range (Retry cfg) ->
  Save localFilePath storagePath (env w) = (Some err, e') ->
  retryLoop cfg task localFilePath (S fuel) i w =
  retryLoop cfg task localFilePath fuel (i + 1)
    {| env := e';
       trace := trace w ++ [EvSave localFilePath storagePath (Some err);
                            failureLog err] |}.
Proof.
  intros Hi Hr HS. unfold storagePath in *. simpl.
  destruct (Z.leb_spec i (Retry cfg)); [|lia].
  unfold callSave. run. rewrite HS. simpl.
  destruct (Z.eqb_spec i (Retry cfg)); [lia|]. simpl.
  rewrite wrap_in_range by (unfold Int64.in_range, Int64.min_int, Int64.max_int in *; lia).
  by rewrite <- app_assoc.
Qed.

(** A failed last attempt is returned, wrapped. *)
Lemma retryLoop_give_up fuel (w : World E) err e' :
  Save localFilePath storagePath (env w) = (Some err, e') ->
  retryLoop cfg task localFilePath (S fuel) (Retry cfg) w =
  (Ret (Some (wrapError "failed to save file: " err)),
   {| env := e';
      trace := trace w ++ [EvSave localFilePath storagePath (Some err)] |}).
Proof.
  intros HS. unfold storagePath in *. simpl. rewrite Z.leb_refl.
  unfold callSave. run. rewrite HS. simpl. by rewrite Z.eqb_refl.
Qed.

(** A successful attempt ends the loop. *)
Lemma retryLoop_saved fuel i (w : World E) e' :
  i <= Retry cfg ->
  Save localFilePath storagePath (env w) = (None, e') ->
  retryLoop cfg task localFilePath (S fuel) i w =
  (Ret None,
   {| env := e';
      trace := trace w ++ [EvSave localFilePath storagePath None] |}).
Proof.
  intros Hi HS. unfold storagePath in *. simpl.
  destruct (Z.leb_spec i (Retry cfg)); [|lia].
  unfold callSave. run. by rewrite HS.
Qed.

(** With [k] failures ahead and room for them, the loop succeeds at
    attempt [k + 1]. *)
Lemma retryLoop_succeeds k : forall fuel i (w : World E),
  0 <= i -> i + Z.of_nat k <= Retry cfg -> Int64.in_range (Retry cfg) ->
  (k < fuel)%nat ->
  failsThenSucceeds localFilePath storagePath k (env w) ->
  exists w',
    retryLoop cfg task localFilePath fuel i w = (Ret None, w') /\
    exists tr : list event, trace w' = trace w ++ tr /\
      saveCalls tr = S k /\ logCalls tr = k.
Proof.
  induction k as [|k IH]; intros fuel i w Hi Hk Hr Hfuel Hfail;
    destruct fuel as [|fuel]; try lia; simpl in Hfail.
  - destruct (Save localFilePath storagePath (env w)) as [r e'] eqn:HS.
    simpl in Hfail; subst r.
    eexists; split; [apply retryLoop_saved; [lia|exact HS]|].
    simpl. eexists; split; [reflexivity|]. done.
  - destruct Hfail as [Hne Hfail].
    destruct (Save localFilePath storagePath (env w)) as [[err|] e'] eqn:HS;
      simpl in Hne, Hfail; [|done].
    rewrite (retryLoop_retry fuel i w err e') by (try done; lia).
    destruct (IH fuel (i + 1)
                {| env := e';
                   trace := trace w ++ [EvSave localFilePath storagePath (Some err);
                                        failureLog err] |})
      as (w' & Hrun & tr & Htr & Hs & Hl); try done; try lia.
    exists w'; split; [done|]. simpl in Htr.
    eexists; split; [by rewrite Htr, <- app_assoc|].
    rewrite saveCalls_app, logCalls_app, Hs, Hl. done.
Qed.

(** With failures all the way to attempt [Retry + 1], the loop returns
    the last of them. *)
Lemma retryLoop_exhausts n : forall fuel i (w : World E),
  0 <= i -> i + Z.of_nat n = Retry cfg -> Int64.in_range (Retry cfg) ->
  (n < fuel)%nat ->
  (forall j, (j <= n)%nat -> attempt localFilePath storagePath j (env w) <> None) ->
  exists err w',
    attempt localFilePath storagePath n (env w) = Some err /\
    retryLoop cfg task localFilePath fuel i w =
      (Ret (Some (wrapError "failed to save file: " err)), w') /\
    exists tr : list event, trace w' = trace w ++ tr /\
      saveCalls tr = S n /\ logCalls tr = n.
Proof.
  induction n as [|n IH]; intros fuel i w Hi Hn Hr Hfuel Hfail;
    destruct fuel as [|fuel]; try lia.
  - pose proof (Hfail O ltac:(lia)) as H0. simpl in H0.
    destruct (Save localFilePath storagePath (env w)) as [[err|] e'] eqn:HS;
      simpl in H0; [|done].
    replace i with (Retry cfg) by lia.
    exists err; eexists; split; [by simpl; rewrite HS|].
    split; [apply retryLoop_give_up; exact HS|].
    simpl. eexists; split; [reflexivity|]. done.
  - pose proof (Hfail O ltac:(lia)) as H0. simpl in H0.
    destruct (Save localFilePath storagePath (env w)) as [[err|] e'] eqn:HS;
      simpl in H0; [|done].
    rewrite (retryLoop_retry fuel i w err e') by (try done; lia).
    destruct (IH fuel (i + 1)
                {| env := e';
                   trace := trace w ++ [EvSave localFilePath storagePath (Some err);
                                        failureLog err] |})
      as (err' & w' & Hatt & Hrun & tr & Htr & Hs & Hl); try done; try lia.
    { intros j Hj. specialize (Hfail (S j) ltac:(lia)). simpl in Hfail.
      by rewrite HS in Hfail. }
    exists err', w'. simpl in Hatt. simpl attempt. rewrite HS. simpl snd.
    split; [done|]. split; [done|]. simpl in Htr.
    eexists; split; [by rewrite Htr, <- app_assoc|].
    rewrite saveCalls_app, logCalls_app, Hs, Hl. done.
Qed.

(** The first [k] attempts of such a backend fail. *)
Lemma failsThenSucceeds_attempt k : forall (e : E) j,
  failsThenSucceeds localFilePath storagePath k e -> (j < k)%nat ->
  attempt localFilePath storagePath j e <> None.
Proof.
  induction k as [|k IH]; intros e j Hf Hj; [lia|].
  destruct Hf as [Hne Hf]. destruct j as [|j]; simpl; [done|].
  apply IH; [done|lia].
Qed.

End SaveRetrierFacts.

(** C1. A backend that fails exactly [k] times and then succeeds: with
    [Retry >= k], [saveFileWithRetry] returns [nil] after exactly [k + 1]
    calls of [Save]; with [0 <= Retry < k] it returns, after exactly
    [Retry + 1] calls, the error of the last attempt wrapped in "failed to
    save file", the [Retry] earlier failures having been logged only; with
    [Retry < 0] it makes no call at all and returns [nil], the world left
    as it was. *)
Theorem saveFileWithRetry_fails_k_then_succeeds
    {E : Type} `{!Storage E} (cfg : Config) (task : Task)
    (localFilePath : string) (w : World E) (k : nat) :
  Int64.in_range (Retry cfg) ->
  failsThenSucceeds localFilePath (StoragePath task) k (env w) ->
  (Z.of_nat k <= Retry cfg ->
     exists w',
       saveFileWithRetry cfg task localFilePath w = (Ret None, w') /\
       saveCalls (since w w') = S k) /\
  (0 <= Retry cfg < Z.of_nat k ->
     exists err w',
       attempt localFilePath (StoragePath task) (Z.to_nat (Retry cfg)) (env w)
         = Some err /\
       saveFileWithRetry cfg task localFilePath w
         = (Ret (Some (wrapError "failed to save file: " err)), w') /\
       saveCalls (since w w') = S (Z.to_nat (Retry cfg)) /\
       logCalls (since w w') = Z.to_nat (Retry cfg)) /\
  (Retry cfg < 0 ->
     saveFileWithRetry cfg task localFilePath w = (Ret None, w) /\
     saveCalls (since w w) = 0%nat).
Proof.
  intros Hr Hfail. unfold saveFileWithRetry. split; [|split]; intros Hk.
  - destruct (retryLoop_succeeds cfg task localFilePath k
                (Z.to_nat (Retry cfg + 1) + 1) 0 w)
      as (w' & Hrun & tr & Htr & Hs & _); try done; try lia.
    exists w'. split; [done|]. by rewrite (since_app _ _ _ Htr).
  - destruct (retryLoop_exhausts cfg task localFilePath (Z.to_nat (Retry cfg))
                (Z.to_nat (Retry cfg + 1) + 1) 0 w)
      as (err & w' & Hatt & Hrun & tr & Htr & Hs & Hl); try done; try lia.
    { intros j Hj.
      apply (failsThenSucceeds_attempt task localFilePath k); [done|lia]. }
    exists err, w'. rewrite (since_app _ _ _ Htr). done.
  - split.
    + replace (Z.to_nat (Retry cfg + 1) + 1)%nat with 1%nat by lia. simpl.
      destruct (Z.leb_spec 0 (Retry cfg)); [lia|done].
    + unfold since. by rewrite drop_all.
Qed.

(** Three runs on the scripted backend, which fails twice and then
    succeeds: under the default limit of three retries, under a limit of
    one, and under a limit of -1. *)
Lemma saveFileWithRetry_fails_k_then_succeeds_witness :
  let w := world0 (set_saves [Some (errorString "first"); Some boom] stub0) in
  (exists w',
     saveFileWithRetry cfg0 task0 "cache/photo" w = (Ret None, w') /\
     saveCalls (since w w') = 3%nat) /\
  (exists err w',
     attempt "cache/photo" (StoragePath task0) 1 (env w) = Some err /\
     saveFileWithRetry (set_Retry 1 cfg0) task0 "cache/photo" w
       = (Ret (Some (wrapError "failed to save file: " err)), w') /\
     saveCalls (since w w') = 2%nat /\
     logCalls (since w w') = 1%nat) /\
  (saveFileWithRetry (set_Retry (-1) cfg0) task0 "cache/photo" w = (Ret None, w) /\
   saveCalls (since w w) = 0%nat).
Proof.
  intros w. split; [|split].
  - refine (proj1 (saveFileWithRetry_fails_k_then_succeeds
                     cfg0 task0 "cache/photo" w 2 _ _) _).
    + unfold Int64.in_range, Int64.min_int, Int64.max_int. simpl. lia.
    + simpl. repeat split; discriminate.
    + simpl. lia.
  - refine (proj1 (proj2 (saveFileWithRetry_fails_k_then_succeeds
                            (set_Retry 1 cfg0) task0 "cache/photo" w 2 _ _)) _).
    + unfold Int64.in_range, Int64.min_int, Int64.max_int. simpl. lia.
    + simpl. repeat split; discriminate.
    + simpl. lia.
  - refine (proj2 (proj2 (saveFileWithRetry_fails_k_then_succeeds
                            (set_Retry (-1) cfg0) task0 "cache/photo" w 2 _ _)) _).
    + unfold Int64.in_range, Int64.min_int, Int64.max_int. simpl. lia.
    + simpl. repeat split; discriminate.
    + simpl. lia.
Defined.

(** C1 as stated, at a retry limit of -1: the backend fails once and then
    succeeds, so the limit is below the number of failures, and yet what
    comes back is [nil], with no call of [Save] made and no error, wrapped
    or not. *)
Lemma saveFileWithRetry_below_zero_returns_nil :
  let w := world0 (set_saves [Some boom] stub0) in
  let cfg := set_Retry (-1) cfg0 in
  failsThenSucceeds "cache/photo" (StoragePath task0) 1 (env w) /\
  Retry cfg < 1 /\
  saveFileWithRetry cfg task0 "cache/photo" w = (Ret None, w) /\
  ~ (exists err w',
       saveFileWithRetry cfg task0 "cache/photo" w = (Ret (Some err), w')).
Proof.
  intros w cfg. split; [|split; [|split]].
  - simpl. repeat split; discriminate.
  - simpl. lia.
  - reflexivity.
  - intros (err & w' & Hrun). vm_compute in Hrun. discriminate.
Qed.

(** The same backend under a limit of one retry: the second failure comes
    back wrapped, after two calls. *)
Example saveFileWithRetry_gives_up :
  let w := world0 (set_saves [Some (errorString "first"); Some boom] stub0) in
  let '(r, w') := saveFileWithRetry (set_Retry 1 cfg0) task0 "cache/photo" w in
  r = Ret (Some (wrapError "failed to save file: " boom)) /\
  saveCalls (since w w') = 2%nat.
Proof. vm_compute. done. Qed.

(** Below zero the loop body never runs: no call, and [nil]. *)
Lemma saveFileWithRetry_negative_limit
    {E : Type} `{!Storage E} (cfg : Config) (task : Task)
    (localFilePath : string) (w : World E) :
  Retry cfg < 0 ->
  saveFileWithRetry cfg task localFilePath w = (Ret None, w).
Proof.
  intros Hneg. unfold saveFileWithRetry.
  replace (Z.to_nat (Retry cfg + 1) + 1)%nat with 1%nat by lia. simpl.
  destruct (Z.leb_spec 0 (Retry cfg)); [lia|done].
Qed.

Section SaveRetrierAnyBackend.

Context {E : Type} `{!Storage E}.

Variables (cfg : Config) (task : Task) (localFilePath : string).

(** Whatever the backend answers, the loop returns; it records [Save]
    calls and log lines only, at least one call and at most as many as the
    counter leaves room for, and an error comes back only once that room
    is used up. *)
Lemma retryLoop_returns fuel : forall i (w : World E),
  0 <= i <= Retry cfg -> Int64.in_range (Retry cfg) ->
  (Z.to_nat (Retry cfg - i) < fuel)%nat ->
  exists r w' (tr : list event),
    retryLoop cfg task localFilePath fuel i w = (Ret r, w') /\
    trace w' = trace w ++ tr /\
    Forall (fun ev => isSave ev = true \/ isLog ev = true) tr /\
    (1 <= saveCalls tr <= Z.to_nat (Retry cfg - i) + 1)%nat /\
    (r <> None -> saveCalls tr = (Z.to_nat (Retry cfg - i) + 1)%nat).
Proof.
  induction fuel as [|fuel IH]; intros i w Hi Hr Hfuel; [lia|].
  destruct (Save localFilePath (StoragePath task) (env w)) as [[err|] e'] eqn:HS.
  - destruct (Z.eq_dec i (Retry cfg)) as [->|Hne].
    + do 3 eexists. split; [apply retryLoop_give_up; exact HS|].
      split; [reflexivity|]. split; [repeat constructor|].
      replace (Retry cfg - Retry cfg) with 0 by lia.
      change (saveCalls [EvSave localFilePath (StoragePath task) (Some err)])
        with 1%nat.
      split; [simpl; lia|done].
    + rewrite (retryLoop_retry cfg task localFilePath fuel i w err e')
        by (try done; lia).
      edestruct (IH (i + 1)) as (r & w' & tr & Hrun & Htr & Hall & Hn & Hfull);
        [| exact Hr | | ]; [lia | lia |].
      exists r, w'. eexists. split; [exact Hrun|]. simpl in Htr.
      split; [by rewrite Htr, <- app_assoc|].
      split; [repeat constructor; done|].
      rewrite saveCalls_app.
      replace (Z.to_nat (Retry cfg - i)) with (S (Z.to_nat (Retry cfg - (i + 1))))
        by lia.
      change (saveCalls [EvSave localFilePath (StoragePath task) (Some err);
                         EvLog Error "Failed to save file: %s, retrying..."
                           [ArgErr err]]) with 1%nat.
      split; [lia|]. intros Hsome. rewrite (Hfull Hsome). lia.
  - do 3 eexists. split; [apply retryLoop_saved; [lia|exact HS]|].
    split; [reflexivity|]. split; [repeat constructor|].
    change (saveCalls [EvSave localFilePath (StoragePath task) None])
      with 1%nat.
    split; [lia|done].
Qed.

(** [saveFileWithRetry] returns for every backend and every limit. *)
Lemma saveFileWithRetry_returns (w : World E) :
  Int64.in_range (Retry cfg) ->
  exists r w' (tr : list event),
    saveFileWithRetry cfg task localFilePath w = (Ret r, w') /\
    trace w' = trace w ++ tr /\
    Forall (fun ev => isSave ev = true \/ isLog ev = true) tr /\
    (r <> None -> 0 <= Retry cfg /\
                  saveCalls tr = (Z.to_nat (Retry cfg) + 1)%nat).
Proof.
  intros Hr. destruct (Z.lt_ge_cases (Retry cfg) 0) as [Hneg|Hpos].
  - exists None, w, []. rewrite app_nil_r.
    split; [by apply saveFileWithRetry_negative_limit|].
    split; [done|]. split; [constructor|done].
  - destruct (retryLoop_returns (Z.to_nat (Retry cfg + 1) + 1) 0 w)
      as (r & w' & tr & Hrun & Htr & Hall & _ & Hfull); try done; try lia.
    exists r, w', tr. do 3 (split; [done|]).
    intros Hsome. split; [done|]. rewrite (Hfull Hsome).
    by replace (Retry cfg - 0) with (Retry cfg) by lia.
Qed.

End SaveRetrierAnyBackend.

(** ** [config.Init] *)

Section LoaderFacts.

Variable transformDeprecatedStorageConfig :
  string -> list StorageConfig -> list StorageConfig.

Abbreviation Init := (Init transformDeprecatedStorageConfig).
Let checked := checkedConfig transformDeprecatedStorageConfig.

Lemma checkedConfig_Workers c sc : Workers (checked c sc) = Workers c.
Proof.
  unfold checked, checkedConfig.
  destruct (Admins (Telegram c)); simpl; by destruct (DeprecatedStorage c).
Qed.

Lemma checkedConfig_Retry c sc : Retry (checked c sc) = Retry c.
Proof.
  unfold checked, checkedConfig.
  destruct (Admins (Telegram c)); simpl; by destruct (DeprecatedStorage c).
Qed.

(** [Init] once the configuration is decoded and the storages loaded. *)
Lemma Init_decoded v Cfg0 c sc :
  SafeWriteConfigAs v = WriteOk \/
  SafeWriteConfigAs v = ConfigFileAlreadyExistsError ->
  ReadInConfig v = None -> Unmarshal v = inl c ->
  LoadStorageConfigs v = inl sc ->
  Init v Cfg0 =
  match duplicateName ∅ (Storages (checked c sc)) with
  | Some name =>
      InitReturn (Some (errorString ("重复的存储名: " +:+ name)))
        (Some (checked c sc))
  | None =>
      if (Workers (checked c sc) <? 1) || (Retry (checked c sc) <? 1) then
        InitReturn
          (Some (errorString
             ("workers 和 retry 必须大于 0, 当前值: workers="
              +:+ pretty (Workers (checked c sc)) +:+ ", retry="
              +:+ pretty (Retry (checked c sc)))))
          (Some (checked c sc))
      else InitReturn None (Some (checked c sc))
  end.
Proof.
  intros Hw Hread Hdec Hload. unfold Init.
  rewrite Hread, Hdec, Hload. by destruct Hw as [-> | ->].
Qed.

(** [Init] returns [nil] only past its last check. *)
Lemma Init_nil_inv v Cfg0 Cfg :
  Init v Cfg0 = InitReturn None Cfg ->
  exists c sc,
    Unmarshal v = inl c /\ LoadStorageConfigs v = inl sc /\
    Cfg = Some (checked c sc) /\
    (Workers c <? 1) || (Retry c <? 1) = false.
Proof.
  intros Hnil.
  assert (SafeWriteConfigAs v = WriteOk \/
          SafeWriteConfigAs v = ConfigFileAlreadyExistsError) as Hw.
  { unfold Init in Hnil. destruct (SafeWriteConfigAs v); by eauto. }
  destruct (ReadInConfig v) as [e|] eqn:Hread.
  { unfold Init in Hnil. rewrite Hread in Hnil.
    destruct Hw as [Hw|Hw]; rewrite Hw in Hnil; discriminate. }
  destruct (Unmarshal v) as [c|e] eqn:Hdec.
  2: { unfold Init in Hnil. rewrite Hread, Hdec in Hnil.
       destruct Hw as [Hw|Hw]; rewrite Hw in Hnil; discriminate. }
  destruct (LoadStorageConfigs v) as [sc|e] eqn:Hload.
  2: { unfold Init in Hnil. rewrite Hread, Hdec, Hload in Hnil.
       destruct Hw as [Hw|Hw]; rewrite Hw in Hnil; discriminate. }
  rewrite (Init_decoded v Cfg0 c sc) in Hnil by done.
  destruct (duplicateName ∅ (Storages (checked c sc))); [discriminate|].
  rewrite checkedConfig_Workers, checkedConfig_Retry in Hnil.
  destruct ((Workers c <? 1) || (Retry c <? 1)) eqn:Hchk; [discriminate|].
  injection Hnil as <-. by exists c, sc.
Qed.

(** A decoded configuration with too few workers or retries never gets
    [nil] out of [Init]. *)
Lemma Init_rejects v Cfg0 c :
  ReadInConfig v = None -> Unmarshal v = inl c ->
  Workers c < 1 \/ Retry c < 1 ->
  exists err Cfg, Init v Cfg0 = InitReturn (Some err) Cfg.
Proof.
  intros Hread Hdec Hsmall.
  assert ((Workers c <? 1) || (Retry c <? 1) = true) as Hchk.
  { apply orb_true_iff. destruct Hsmall; [left|right]; by apply Z.ltb_lt. }
  destruct (SafeWriteConfigAs v) eqn:Hw;
    [| |unfold Init; rewrite Hw; by eauto];
    (destruct (LoadStorageConfigs v) as [sc|e] eqn:Hload;
     [|unfold Init; rewrite Hw, Hread, Hdec, Hload; by eauto];
     rewrite (Init_decoded v Cfg0 c sc) by (by eauto);
     destruct (duplicateName ∅ (Storages (checked c sc))); [by eauto|];
     rewrite checkedConfig_Workers, checkedConfig_Retry, Hchk; by eauto).
Qed.

End LoaderFacts.

(** What the last check of [Init] gives.  [Init] returns an error for
    every decoded configuration whose worker count or retry limit is below
    1; when it returns [nil] the configuration it leaves in [Cfg] has both
    at least 1, and under that configuration [saveFileWithRetry] returns
    an error only after at least two calls of [Save]. *)
Theorem Init_rejects_workers_or_retry_below_one
    (transformDeprecatedStorageConfig :
       string -> list StorageConfig -> list StorageConfig)
    (v : Viper) (Cfg0 : option Config) :
  (forall c,
     ReadInConfig v = None -> Unmarshal v = inl c ->
     Workers c < 1 \/ Retry c < 1 ->
     exists err Cfg,
       Init transformDeprecatedStorageConfig v Cfg0 = InitReturn (Some err) Cfg) /\
  (forall Cfg,
     Init transformDeprecatedStorageConfig v Cfg0 = InitReturn None Cfg ->
     exists c,
       Cfg = Some c /\ 1 <= Workers c /\ 1 <= Retry c /\
       forall (E : Type) (backend : Storage E) (task : Task)
              (localFilePath : string) (w : World E),
         Int64.in_range (Retry c) ->
         exists r w',
           saveFileWithRetry c task localFilePath w = (Ret r, w') /\
           (r <> None -> (2 <= saveCalls (since w w'))%nat)).
Proof.
  split.
  - intros c. apply Init_rejects.
  - intros Cfg Hnil.
    destruct (Init_nil_inv _ _ _ _ Hnil) as (c & sc & _ & _ & -> & Hchk).
    apply orb_false_iff in Hchk as [Hw Hr].
    apply Z.ltb_ge in Hw, Hr.
    eexists. split; [reflexivity|].
    rewrite checkedConfig_Workers, checkedConfig_Retry.
    do 2 (split; [done|]).
    intros E backend task localFilePath w Hrange.
    rewrite <- (checkedConfig_Retry transformDeprecatedStorageConfig c sc)
      in Hrange.
    destruct (saveFileWithRetry_returns
                (checkedConfig transformDeprecatedStorageConfig c sc)
                task localFilePath w Hrange)
      as (r & w' & tr & Hrun & Htr & _ & Hfull).
    exists r, w'. split; [done|]. intros Hsome.
    rewrite (since_app _ _ _ Htr).
    destruct (Hfull Hsome) as [_ ->].
    rewrite checkedConfig_Retry. lia.
Qed.

(** C9. The check on the retry limit is made by [Init] and by nothing
    else.  A process whose [Init] has returned [nil], with three retries
    in [Cfg], reloads a configuration whose retry limit is 0:
    [ReloadConfig] returns [nil] as well and leaves that limit in [Cfg].
    Under it [saveFileWithRetry], on a backend that fails once and would
    succeed at the second call, gives up after the first: one call of
    [Save], no line logged, and the failure returned wrapped. *)
Theorem ReloadConfig_after_Init_leaves_retry_below_one :
  let vInit := {| SafeWriteConfigAs := ConfigFileAlreadyExistsError;
                  ReadInConfig := None;
                  Unmarshal := inl cfg0;
                  LoadStorageConfigs := inl [] |} in
  let vReload := {| Reload_WriteConfig := None;
                    Reload_ReadInConfig := None;
                    Reload_Unmarshal :=
                      fun _ => (Some (set_Retry 0 cfg0), None) |} in
  let w := world0 (set_saves [Some boom] stub0) in
  Init (fun _ l => l) vInit None = InitReturn None (Some cfg0) /\
  ReloadConfig vReload (Some cfg0) = (None, Some (set_Retry 0 cfg0)) /\
  Retry (set_Retry 0 cfg0) < 1 /\
  failsThenSucceeds "cache/photo" (StoragePath task0) 1 (env w) /\
  let '(r, w') := saveFileWithRetry (set_Retry 0 cfg0) task0 "cache/photo" w in
  r = Ret (Some (wrapError "failed to save file: " boom)) /\
  saveCalls (since w w') = 1%nat /\
  logCalls (since w w') = 0%nat.
Proof.
  intros vInit vReload w.
  split; [reflexivity|]. split; [reflexivity|]. split; [simpl; lia|].
  split; [simpl; repeat split; discriminate|].
  by vm_compute.
Qed.

(** A configuration file with [retry = 0] is turned down, and the default
    one is taken. *)
Example Init_retry_zero :
  let v := {| SafeWriteConfigAs := ConfigFileAlreadyExistsError;
              ReadInConfig := None;
              Unmarshal := inl (set_Retry 0 cfg0);
              LoadStorageConfigs := inl [] |} in
  Init (fun _ l => l) v None
  = InitReturn
      (Some (errorString
         "workers 和 retry 必须大于 0, 当前值: workers=3, retry=0"))
      (Some (set_Retry 0 cfg0)).
Proof. vm_compute. reflexivity. Qed.

Example Init_defaults :
  let v := {| SafeWriteConfigAs := WriteOk;
              ReadInConfig := None;
              Unmarshal := inl cfg0;
              LoadStorageConfigs :=
                inl [ {| GetName := "disk"; GetType := "local" |} ] |} in
  Init (fun _ l => l) v None
  = InitReturn None
      (Some (set_Storages [ {| GetName := "disk"; GetType := "local" |} ] cfg0)).
Proof. vm_compute. reflexivity. Qed.

(** ** The parallelism policy *)

(** C6. [getProgressUpdateCount] is 50 above 1000 MiB, 20 above 500 MiB
    and up to 1000 MiB, 10 above 200 MiB and up to 500 MiB, and 5
    otherwise; it takes no other value, and its value divides 100. *)
Theorem getProgressUpdateCount_bands (fileSize : Z) :
  (MiB 1000 < fileSize -> getProgressUpdateCount fileSize = 50) /\
  (MiB 500 < fileSize <= MiB 1000 -> getProgressUpdateCount fileSize = 20) /\
  (MiB 200 < fileSize <= MiB 500 -> getProgressUpdateCount fileSize = 10) /\
  (fileSize <= MiB 200 -> getProgressUpdateCount fileSize = 5) /\
  getProgressUpdateCount fileSize ∈ [5; 10; 20; 50] /\
  (getProgressUpdateCount fileSize | 100) /\
  Z.rem 100 (getProgressUpdateCount fileSize) = 0.
Proof.
  unfold getProgressUpdateCount, MiB.
  repeat case_match;
    repeat match goal with
           | H : (_ <? _) = true |- _ => apply Z.ltb_lt in H
           | H : (_ <? _) = false |- _ => apply Z.ltb_ge in H
           end;
    repeat split; try lia; try set_solver; try reflexivity.
  - by exists 2.
  - by exists 5.
  - by exists 10.
  - by exists 20.
Qed.

Example getProgressUpdateCount_edges :
  getProgressUpdateCount (MiB 1000) = 20 /\
  getProgressUpdateCount (MiB 1000 + 1) = 50 /\
  getProgressUpdateCount (MiB 500) = 10 /\
  getProgressUpdateCount (MiB 200) = 5 /\
  getProgressUpdateCount (-1) = 5.
Proof. by vm_compute. Qed.

(** C3, as stated, fails: with a maximum of one thread, a file of
    50 MiB + 1 gets [1 / 2 = 0] threads, fewer than the 1 of a 50 MiB
    file and fewer than 1. *)
Lemma getTaskThreads_not_clamped :
  let cfg := set_Threads 1 cfg0 in
  MiB 50 <= MiB 50 + 1 /\
  ~ (getTaskThreads cfg (MiB 50) <= getTaskThreads cfg (MiB 50 + 1)) /\
  ~ (1 <= getTaskThreads cfg (MiB 50 + 1)).
Proof. vm_compute. repeat split; congruence. Qed.

(** C3, amended. With a configured maximum of at least 2 threads,
    [getTaskThreads] is monotone in the file size and at least 1; between
    50 MiB and 100 MiB it is the truncated half of the maximum, not
    clamped. *)
Theorem getTaskThreads_monotone_from_two (cfg : Config) (s1 s2 : Z) :
  2 <= Threads cfg -> s1 <= s2 ->
  getTaskThreads cfg s1 <= getTaskThreads cfg s2 /\
  1 <= getTaskThreads cfg s1 /\
  (MiB 50 < s1 <= MiB 100 -> getTaskThreads cfg s1 = Threads cfg ÷ 2).
Proof.
  intros Ht Hs. unfold getTaskThreads, MiB.
  pose proof (Z.quot_pos (Threads cfg) 2 ltac:(lia) ltac:(lia)).
  assert (1 <= Threads cfg ÷ 2) by (apply Z.quot_le_lower_bound; lia).
  assert (Threads cfg ÷ 2 <= Threads cfg)
    by (apply Z.quot_le_upper_bound; lia).
  repeat case_match;
    repeat match goal with
           | H : (_ <? _) = true |- _ => apply Z.ltb_lt in H
           | H : (_ <? _) = false |- _ => apply Z.ltb_ge in H
           end;
    repeat split; try lia.
Qed.

Lemma getTaskThreads_monotone_from_two_witness :
  getTaskThreads cfg0 (MiB 60) <= getTaskThreads cfg0 (MiB 200) /\
  1 <= getTaskThreads cfg0 (MiB 60) /\
  (MiB 50 < MiB 60 <= MiB 100 -> getTaskThreads cfg0 (MiB 60) = Threads cfg0 ÷ 2).
Proof.
  apply (getTaskThreads_monotone_from_two cfg0 (MiB 60) (MiB 200)).
  - simpl. lia.
  - unfold MiB. lia.
Defined.

(** Below 2 the policy does fall under one thread. *)
Lemma getTaskThreads_below_two (cfg : Config) :
  Threads cfg < 2 -> getTaskThreads cfg (MiB 50 + 1) < 1.
Proof.
  intros Ht. unfold getTaskThreads, MiB. simpl.
  destruct (Z.le_gt_cases 0 (Threads cfg)).
  - replace (Threads cfg ÷ 2) with 0; [lia|].
    symmetry. apply Z.quot_small. lia.
  - pose proof (Z.quot_opp_l (Threads cfg) 2 ltac:(lia)).
    pose proof (Z.quot_pos (- Threads cfg) 2 ltac:(lia) ltac:(lia)). lia.
Qed.

(** ** [cleanCacheFile] and [processPhoto] *)

Section TransferFacts.

Context {E : Type} `{!Storage E} `{!External E}.

Lemma reclaims_app name (tr1 tr2 : list event) :
  reclaims name (tr1 ++ tr2) = (reclaims name tr1 + reclaims name tr2)%nat.
Proof. unfold reclaims. by rewrite filter_app, length_app. Qed.

Lemma reclaims_none name (tr : list event) :
  Forall (fun ev => isSave ev = true \/ isLog ev = true) tr ->
  reclaims name tr = 0%nat.
Proof.
  unfold reclaims. induction 1 as [|ev tr Hev _ IH]; [done|].
  rewrite filter_cons_False; [done|].
  destruct ev; simpl in *; try (by intros []); destruct Hev; discriminate.
Qed.

(** What [cleanCacheFile] does, by the sign of the TTL. *)
Lemma cleanCacheFile_scheduled (cfg : Config) destPath (w : World E) :
  0 < CacheTTL (Temp cfg) ->
  cleanCacheFile cfg destPath w
  = (Ret tt, {| env := env w;
                trace := trace w ++
                  [EvRmFileAfter destPath
                     (Int64.wrap (CacheTTL (Temp cfg) * Second))] |}).
Proof.
  intros Httl. unfold cleanCacheFile.
  destruct (Z.ltb_spec 0 (CacheTTL (Temp cfg))); [done|lia].
Qed.

Lemma cleanCacheFile_removed (cfg : Config) destPath (w : World E) :
  CacheTTL (Temp cfg) <= 0 ->
  cleanCacheFile cfg destPath w
  = (Ret tt,
     {| env := snd (os_Remove destPath (env w));
        trace := trace w ++
          EvRemove destPath (fst (os_Remove destPath (env w))) ::
          match fst (os_Remove destPath (env w)) with
          | Some err => [EvLog Error "Failed to purge file: %s" [ArgErr err]]
          | None => []
          end |}).
Proof.
  intros Httl. unfold cleanCacheFile.
  destruct (Z.ltb_spec 0 (CacheTTL (Temp cfg))); [lia|].
  unfold callRemove. run.
  destruct (os_Remove destPath (env w)) as [[err|] e']; simpl; [|done].
  by rewrite <- app_assoc.
Qed.

(** Either way it returns, with exactly one reclaiming record on the path. *)
Lemma cleanCacheFile_once (cfg : Config) destPath (w : World E) :
  exists w' (tr : list event),
    cleanCacheFile cfg destPath w = (Ret tt, w') /\
    trace w' = trace w ++ tr /\ reclaims destPath tr = 1%nat /\
    saveCalls tr = 0%nat.
Proof.
  destruct (Z.lt_ge_cases 0 (CacheTTL (Temp cfg))) as [Hpos|Hneg].
  - rewrite cleanCacheFile_scheduled by done.
    do 2 eexists. split; [reflexivity|]. split; [reflexivity|].
    unfold reclaims, saveCalls.
    rewrite filter_cons_True by (simpl; by rewrite String.eqb_refl). done.
  - rewrite cleanCacheFile_removed by done.
    do 2 eexists. split; [reflexivity|]. split; [reflexivity|].
    unfold reclaims, saveCalls.
    rewrite filter_cons_True by (simpl; by rewrite String.eqb_refl).
    by destruct (fst (os_Remove destPath (env w))).
Qed.

End TransferFacts.

(** C7. With a positive TTL [cleanCacheFile] leaves the environment as it
    is, removes nothing, and sets one timer on the path, of
    [time.Duration(TTL) * time.Second], which is [TTL] seconds whenever
    that product fits in an [int64]; with a TTL of zero or less it asks
    [os.Remove] for the path before returning, and an error of that call is
    logged and nothing else.  It returns normally in both cases. *)
Theorem cleanCacheFile_by_ttl
    {E : Type} `{!External E} (cfg : Config) (destPath : string) (w : World E) :
  let ttl := CacheTTL (Temp cfg) in
  (exists w', cleanCacheFile cfg destPath w = (Ret tt, w')) /\
  (0 < ttl ->
     cleanCacheFile cfg destPath w
     = (Ret tt, {| env := env w;
                   trace := trace w ++
                     [EvRmFileAfter destPath (Int64.wrap (ttl * Second))] |}) /\
     (ttl * Second <= Int64.max_int ->
        Int64.wrap (ttl * Second) = ttl * 1000000000)) /\
  (ttl <= 0 ->
     let answer := os_Remove destPath (env w) in
     cleanCacheFile cfg destPath w
     = (Ret tt,
        {| env := snd answer;
           trace := trace w ++
             EvRemove destPath (fst answer) ::
             match fst answer with
             | Some err => [EvLog Error "Failed to purge file: %s" [ArgErr err]]
             | None => []
             end |})).
Proof.
  intros ttl. split; [|split].
  - destruct (Z.lt_ge_cases 0 ttl) as [Hpos|Hneg].
    + rewrite cleanCacheFile_scheduled by done. by eexists.
    + rewrite cleanCacheFile_removed by done. by eexists.
  - intros Hpos. split; [by apply cleanCacheFile_scheduled|].
    intros Hfit. apply wrap_in_range.
    unfold Int64.in_range, Int64.min_int, Int64.max_int, Second in *. lia.
  - intros Hneg. by apply cleanCacheFile_removed.
Qed.

(** The default TTL of an hour: one timer, nothing removed. *)
Example cleanCacheFile_default_ttl :
  cleanCacheFile cfg0 "cache/photo" (world0 stub0)
  = (Ret tt, {| env := stub0;
                trace := [EvRmFileAfter "cache/photo" 3600000000000] |}).
Proof. vm_compute. reflexivity. Qed.

(** TTL 0 and a removal that fails: the error is logged, the call returns. *)
Example cleanCacheFile_remove_fails :
  let s := {| saves := []; upload := UploadFile []; writeFile := None;
              remove := Some boom; create := None; writeAt := None;
              detect := inl ".bin" |} in
  cleanCacheFile (set_CacheTTL 0 cfg0) "cache/photo" (world0 s)
  = (Ret tt, {| env := s;
                trace := [EvRemove "cache/photo" (Some boom);
                          EvLog Error "Failed to purge file: %s" [ArgErr boom]] |}).
Proof. vm_compute. reflexivity. Qed.

(** C5, as stated, fails: when the remote fetch returns an error, and
    likewise when [os.WriteFile] does, [processPhoto] returns before its
    [defer], and nothing reclaims the staged path. *)
Lemma processPhoto_error_before_defer_no_reclaim :
  let fetchFails :=
    {| saves := []; upload := UploadErr boom; writeFile := None;
       remove := None; create := None; writeAt := None;
       detect := inl ".bin" |} in
  let writeFails :=
    {| saves := []; upload := UploadFile []; writeFile := Some boom;
       remove := None; create := None; writeAt := None;
       detect := inl ".bin" |} in
  (let w := world0 fetchFails in
   let '(r, w') := processPhoto cfg0 task0 "cache/photo" w in
   r = Ret (Some (wrapError "failed to get file: " boom)) /\
   since w w' = [EvUploadGetFile 1 0 1048576] /\
   ~ (1 <= reclaims "cache/photo" (since w w'))%nat) /\
  (let w := world0 writeFails in
   let '(r, w') := processPhoto cfg0 task0 "cache/photo" w in
   r = Ret (Some (wrapError "failed to write file: " boom)) /\
   since w w' = [EvUploadGetFile 1 0 1048576;
                 EvWriteFile "cache/photo" [] (Some boom)] /\
   ~ (1 <= reclaims "cache/photo" (since w w'))%nat).
Proof. vm_compute. repeat split; lia. Qed.

(** C5, amended.  Once the fetched bytes are written to the staged path,
    [processPhoto] returns what [saveFileWithRetry] returns, and
    [cleanCacheFile] has run on the staged path exactly once, after the
    save attempts, whether the save succeeded or failed.  When the fetch
    returns an error or a value of another class, nothing is staged, saved
    or reclaimed, and an error is returned. *)
Theorem processPhoto_reclaims_once_staged
    {E : Type} `{!Storage E} `{!External E}
    (cfg : Config) (task : Task) (cachePath : string) (w : World E) :
  Int64.in_range (Retry cfg) ->
  let fetched := UploadGetFile (Location (TaskFile task)) 0 (1024 * 1024) (env w) in
  let fetch := EvUploadGetFile (Location (TaskFile task)) 0 (1024 * 1024) in
  (forall bytes,
     fst fetched = UploadFile bytes ->
     let staged := os_WriteFile cachePath bytes (snd fetched) in
     fst staged = None ->
     exists r w1 w',
       saveFileWithRetry cfg task cachePath
         {| env := snd staged;
            trace := trace w ++
              [fetch; EvWriteFile cachePath bytes None;
               EvLog Info "Downloaded file: %s" [ArgStr cachePath]] |}
         = (Ret r, w1) /\
       cleanCacheFile cfg cachePath w1 = (Ret tt, w') /\
       processPhoto cfg task cachePath w = (Ret r, w') /\
       reclaims cachePath (since w w') = 1%nat) /\
  ((forall bytes, fst fetched <> UploadFile bytes) ->
     exists err,
       processPhoto cfg task cachePath w
       = (Ret (Some err), {| env := snd fetched; trace := trace w ++ [fetch] |})).
Proof.
  intros Hr fetched fetch.
  unfold processPhoto, callUploadGetFile. run. fold fetched. fold fetch.
  destruct fetched as [[err|bytes|typeName] e1]; simpl;
    (split; [intros bytes' [= ?]; subst|intros Hno]);
    try (by eexists); try (by destruct (Hno bytes)).
  unfold callWriteFile. run.
  destruct (os_WriteFile cachePath bytes' e1) as [r0 e2]; simpl.
  intros ->. unfold defer. run.
  rewrite <- !app_assoc. simpl.
  destruct (saveFileWithRetry_returns cfg task cachePath
              {| env := e2;
                 trace := trace w ++
                   [fetch; EvWriteFile cachePath bytes' None;
                    EvLog Info "Downloaded file: %s" [ArgStr cachePath]] |} Hr)
    as (r & w1 & tr & Hrun & Htr & Hall & _).
  destruct (cleanCacheFile_once cfg cachePath w1)
    as (w' & tr' & Hclean & Htr' & Hone & _).
  exists r, w1, w'. rewrite Hrun, Hclean. do 3 (split; [done|]).
  simpl in Htr. rewrite Htr, <- !app_assoc in Htr'.
  rewrite (since_app _ _ _ Htr'), !reclaims_app, Hone.
  by rewrite (reclaims_none _ _ Hall).
Qed.

Lemma processPhoto_reclaims_once_staged_witness :
  let s := set_saves [Some boom; Some boom; Some boom; Some boom] stub0 in
  let w := world0 s in
  exists r w1 w',
    saveFileWithRetry cfg0 task0 "cache/photo"
      {| env := s;
         trace := [EvUploadGetFile 1 0 (1024 * 1024);
                   EvWriteFile "cache/photo" [] None;
                   EvLog Info "Downloaded file: %s" [ArgStr "cache/photo"]] |}
      = (Ret r, w1) /\
    cleanCacheFile cfg0 "cache/photo" w1 = (Ret tt, w') /\
    processPhoto cfg0 task0 "cache/photo" w = (Ret r, w') /\
    reclaims "cache/photo" (since w w') = 1%nat.
Proof.
  intros s w.
  refine (proj1 (processPhoto_reclaims_once_staged
                   cfg0 task0 "cache/photo" w _) [] _ _).
  - unfold Int64.in_range, Int64.min_int, Int64.max_int. simpl. lia.
  - reflexivity.
  - reflexivity.
Defined.

(** The whole run when every save fails: four attempts, then the timer. *)
Example processPhoto_save_fails :
  let s := set_saves [Some boom; Some boom; Some boom; Some boom] stub0 in
  let w := world0 s in
  let '(r, w') := processPhoto cfg0 task0 "cache/photo" w in
  r = Ret (Some (wrapError "failed to save file: " boom)) /\
  saveCalls (since w w') = 4%nat /\
  last (since w w') = Some (EvRmFileAfter "cache/photo" 3600000000000).
Proof. vm_compute. done. Qed.

(** ** [fixTaskFileExt] *)

Example path_Ext_examples :
  path_Ext "photo.jpg" = ".jpg" /\
  path_Ext "archive.tar.gz" = ".gz" /\
  path_Ext "photo" = "" /\
  path_Ext "dir.d/photo" = "" /\
  path_Ext "photo." = "." /\
  path_Ext "" = "".
Proof. by vm_compute. Qed.

(** C8. [fixTaskFileExt] has no error to return and always returns.  A
    name with an extension leaves task and environment untouched; a failed
    detection leaves the task untouched (the failure is logged); a
    successful one appends the detected extension to the file name and to
    the storage path, and changes nothing else of the task. *)
Theorem fixTaskFileExt_appends_detected_extension
    {E : Type} `{!External E} (task : Task) (localFilePath : string)
    (w : World E) :
  exists task' w',
    fixTaskFileExt task localFilePath w = (Ret task', w') /\
    (path_Ext (Task_FileName task) <> "" -> task' = task /\ w' = w) /\
    (path_Ext (Task_FileName task) = "" ->
       match fst (mimetype_DetectFile localFilePath (env w)) with
       | inr err =>
           task' = task /\
           since w w' =
             [EvDetectFile localFilePath (inr err);
              EvLog Error "Failed to detect mime type: %s" [ArgErr err]]
       | inl extension =>
           FileName (TaskFile task') = FileName (TaskFile task) +:+ extension /\
           StoragePath task' = StoragePath task +:+ extension /\
           Location (TaskFile task') = Location (TaskFile task) /\
           FileSize (TaskFile task') = FileSize (TaskFile task) /\
           StorageName task' = StorageName task /\
           StartTime task' = StartTime task /\
           ReplyChatID task' = ReplyChatID task /\
           ReplyMessageID task' = ReplyMessageID task
       end).
Proof.
  unfold fixTaskFileExt.
  destruct (String.eqb_spec (path_Ext (Task_FileName task)) "") as [Hext|Hext].
  - unfold callDetectFile. run.
    destruct (mimetype_DetectFile localFilePath (env w)) as [[extension|err] e'];
      simpl; do 2 eexists; (split; [reflexivity|]); (split; [done|]);
      intros _.
    + done.
    + split; [done|]. apply since_app. simpl. by rewrite <- app_assoc.
  - exists task, w. split; [by run|]. split; [done|]. done.
Qed.

Example fixTaskFileExt_adds_ext :
  let '(r, _) := fixTaskFileExt task0 "cache/photo" (world0 stub0) in
  exists task',
    r = Ret task' /\ Task_FileName task' = "photo.bin" /\
    StoragePath task' = "/data/photo.bin".
Proof. vm_compute. by eexists. Qed.

Example fixTaskFileExt_detection_fails :
  let s := {| saves := []; upload := UploadFile []; writeFile := None;
              remove := None; create := None; writeAt := None;
              detect := inr boom |} in
  fst (fixTaskFileExt task0 "cache/photo" (world0 s)) = Ret task0.
Proof. by vm_compute. Qed.

(** ** [TaskLocalFile] *)

Section StagingFileFacts.

Context {E : Type} `{!External E}.

Implicit Types (t : TaskLocalFile E) (w : World E) (p : list Byte.byte).

(** A failed positional write: the error goes back, nothing else moves. *)
Lemma WriteAt_failed t p off w err :
  snd (fst (file_WriteAt (file t) p off (env w))) = Some err ->
  WriteAt t p off w
  = (Ret ((fst (fst (file_WriteAt (file t) p off (env w))), Some err), t),
     {| env := snd (file_WriteAt (file t) p off (env w));
        trace := trace w ++ [writeEvent t p off w] |}).
Proof.
  intros Herr. unfold WriteAt, callFileWriteAt, writeEvent. run.
  destruct (file_WriteAt (file t) p off (env w)) as [[n r] e']; simpl in *.
  by subst r.
Qed.

(** A successful one without a callback: only the counter moves. *)
Lemma WriteAt_no_callback t p off w :
  snd (fst (file_WriteAt (file t) p off (env w))) = None ->
  progressCallback t = None ->
  let n := fst (fst (file_WriteAt (file t) p off (env w))) in
  WriteAt t p off w
  = (Ret ((n, None), set_done (Int64.wrap (done t + n)) t),
     {| env := snd (file_WriteAt (file t) p off (env w));
        trace := trace w ++ [writeEvent t p off w] |}).
Proof.
  intros Hok Hcb. unfold WriteAt, callFileWriteAt, writeEvent. run.
  destruct (file_WriteAt (file t) p off (env w)) as [[n r] e']; simpl in *.
  subst r. by rewrite Hcb.
Qed.

(** A successful one below the threshold: the same. *)
Lemma WriteAt_below t p off w :
  snd (fst (file_WriteAt (file t) p off (env w))) = None ->
  let n := fst (fst (file_WriteAt (file t) p off (env w))) in
  Int64.wrap (done t + n) < nextCallbackAt t ->
  WriteAt t p off w
  = (Ret ((n, None), set_done (Int64.wrap (done t + n)) t),
     {| env := snd (file_WriteAt (file t) p off (env w));
        trace := trace w ++ [writeEvent t p off w] |}).
Proof.
  intros Hok n Hlt. unfold WriteAt, callFileWriteAt, writeEvent. run.
  subst n.
  destruct (file_WriteAt (file t) p off (env w)) as [[n r] e']; simpl in *.
  subst r. destruct (progressCallback t); [|done].
  by destruct (Z.leb_spec (nextCallbackAt t) (Int64.wrap (done t + n))); [lia|].
Qed.

(** A successful one at or past the threshold: the callback is called
    once with the new total, and the threshold moves up by the interval. *)
Lemma WriteAt_fires t p off w cb :
  snd (fst (file_WriteAt (file t) p off (env w))) = None ->
  progressCallback t = Some cb -> wellBehaved cb ->
  let n := fst (fst (file_WriteAt (file t) p off (env w))) in
  nextCallbackAt t <= Int64.wrap (done t + n) ->
  exists e' evs,
    WriteAt t p off w
    = (Ret ((n, None),
            set_nextCallbackAt
              (Int64.wrap (nextCallbackAt t + callbackInterval t))
              (set_done (Int64.wrap (done t + n)) t)),
       {| env := e';
          trace := trace w ++
            writeEvent t p off w ::
            EvCallback (Int64.wrap (done t + n)) (size t) :: evs |}) /\
    Forall (fun ev => isCallback ev = false /\ isFileWrite ev = false) evs.
Proof.
  intros Hok Hcb Hwb n Hge. unfold WriteAt, callFileWriteAt, writeEvent. run.
  subst n.
  destruct (file_WriteAt (file t) p off (env w)) as [[n r] e1]; simpl in *.
  subst r. rewrite Hcb.
  destruct (Z.leb_spec (nextCallbackAt t) (Int64.wrap (done t + n))); [|lia].
  unfold invoke. run.
  destruct (Hwb (Int64.wrap (done t + n)) (size t)
              {| env := e1;
                 trace := (trace w ++
                   [EvFileWriteAt (file t) (Z.of_nat (length p)) off n None]) ++
                   [EvCallback (Int64.wrap (done t + n)) (size t)] |})
    as (e' & evs & Hrun & Hquiet).
  rewrite Hrun. simpl. exists e', evs. split; [|done].
  by rewrite <- !app_assoc.
Qed.

(** Without a callback a run of writes returns and calls none. *)
Lemma writeAll_no_callback ws : forall t w,
  progressCallback t = None ->
  exists t' w' (tr : list event),
    writeAll t ws w = (Ret t', w') /\ trace w' = trace w ++ tr /\
    callbackCalls tr = 0%nat /\ progressCallback t' = None.
Proof.
  induction ws as [|[p off] ws IH]; intros t w Hcb.
  - exists t, w, []. by rewrite app_nil_r.
  - simpl. run.
    destruct (snd (fst (file_WriteAt (file t) p off (env w)))) as [err|] eqn:Hr.
    + rewrite (WriteAt_failed t p off w err Hr). simpl.
      edestruct (IH t) as (t' & w' & tr & Hrun & Htr & Hnone & Hcb'); [exact Hcb|].
      exists t', w'. eexists. split; [exact Hrun|]. simpl in Htr.
      split; [by rewrite Htr, <- app_assoc|].
      split; [|done]. by rewrite callbackCalls_app, Hnone.
    + rewrite (WriteAt_no_callback t p off w Hr Hcb). simpl.
      edestruct (IH (set_done
                       (Int64.wrap
                          (done t + fst (fst (file_WriteAt (file t) p off (env w)))))
                       t))
        as (t' & w' & tr & Hrun & Htr & Hnone & Hcb'); [exact Hcb|].
      exists t', w'. eexists. split; [exact Hrun|]. simpl in Htr.
      split; [by rewrite Htr, <- app_assoc|].
      split; [|done]. by rewrite callbackCalls_app, Hnone.
Qed.

(** What [NewTaskLocalFile] hands out when the file could be created. *)
Lemma NewTaskLocalFile_inv filePath fileSize cb w t w1 :
  NewTaskLocalFile filePath fileSize cb w = (Ret (inl t), w1) ->
  t = {| file := filePath; size := fileSize; done := 0;
         progressCallback := cb; callbackTimes := 100;
         nextCallbackAt := if fileSize ÷ 100 =? 0 then 1 else fileSize ÷ 100;
         callbackInterval := if fileSize ÷ 100 =? 0 then 1 else fileSize ÷ 100 |}.
Proof.
  unfold NewTaskLocalFile, callCreate. run.
  destruct (os_Create filePath (env w)) as [[err|] e']; simpl; [discriminate|].
  by intros [= <- _].
Qed.

End StagingFileFacts.

(** C10. A positional write that fails makes [WriteAt] return that error
    with the [TaskLocalFile] as it was (counter and threshold included) and
    with no callback called; and a [TaskLocalFile] opened with a [nil]
    callback calls none, whatever is written. *)
Theorem WriteAt_failed_write_changes_nothing
    {E : Type} `{!External E} :
  (forall (t : TaskLocalFile E) p off (w : World E) err,
     snd (fst (file_WriteAt (file t) p off (env w))) = Some err ->
     exists n w',
       WriteAt t p off w = (Ret ((n, Some err), t), w') /\
       n = fst (fst (file_WriteAt (file t) p off (env w))) /\
       since w w' = [EvFileWriteAt (file t) (Z.of_nat (length p)) off n (Some err)] /\
       callbackCalls (since w w') = 0%nat) /\
  (forall filePath fileSize (w w1 : World E) (t : TaskLocalFile E) ws,
     NewTaskLocalFile filePath fileSize None w = (Ret (inl t), w1) ->
     exists t' w',
       writeAll t ws w1 = (Ret t', w') /\
       callbackCalls (since w1 w') = 0%nat).
Proof.
  split.
  - intros t p off w err Herr.
    rewrite (WriteAt_failed t p off w err Herr). do 2 eexists.
    split; [reflexivity|]. split; [reflexivity|].
    erewrite since_app by reflexivity. unfold writeEvent. by rewrite Herr.
  - intros filePath fileSize w w1 t ws Hnew.
    apply NewTaskLocalFile_inv in Hnew.
    destruct (writeAll_no_callback ws t w1)
      as (t' & w' & tr & Hrun & Htr & Hnone & _); [by subst t|].
    exists t', w'. split; [done|]. by rewrite (since_app _ _ _ Htr).
Qed.

(** A write on a full disk, half way through a download. *)
Example WriteAt_disk_full :
  let s := {| saves := []; upload := UploadFile []; writeFile := None;
              remove := None; create := None; writeAt := Some boom;
              detect := inl ".bin" |} in
  let t := {| file := "cache/video"; size := 1000; done := 500;
              progressCallback := Some (fun _ _ => mret tt);
              callbackTimes := 100; nextCallbackAt := 510;
              callbackInterval := 10 |} in
  exists w',
    WriteAt t [Byte.x00; Byte.x01] 500 (world0 s)
    = (Ret ((0, Some boom), t), w') /\
    trace w' = [EvFileWriteAt "cache/video" 2 500 0 (Some boom)].
Proof. eexists. split; reflexivity. Qed.

(** *** Counting callbacks over a run of writes *)

Lemma written_app (tr1 tr2 : list event) :
  written (tr1 ++ tr2) = written tr1 + written tr2.
Proof.
  induction tr1 as [|ev tr1 IH]; [done|].
  destruct ev; simpl; rewrite ?IH; lia.
Qed.

Lemma writeCalls_app (tr1 tr2 : list event) :
  writeCalls (tr1 ++ tr2) = (writeCalls tr1 + writeCalls tr2)%nat.
Proof. unfold writeCalls. by rewrite filter_app, length_app. Qed.

Lemma written_nonneg (tr : list event) : Forall okWrite tr -> 0 <= written tr.
Proof.
  induction 1 as [|ev tr Hev _ IH]; [done|].
  destruct ev; simpl in *; lia.
Qed.

(** The records of a well-behaved callback count for nothing. *)
Lemma quiet_records (evs : list event) :
  Forall (fun ev => isCallback ev = false /\ isFileWrite ev = false) evs ->
  callbackCalls evs = 0%nat /\ writeCalls evs = 0%nat /\ written evs = 0 /\
  Forall okWrite evs /\ forall limit, Forall (writeWithin limit) evs.
Proof.
  unfold callbackCalls, writeCalls.
  induction 1 as [|ev evs [Hc Hw] _ (IHc & IHw & IHn & IHok & IHin)].
  - repeat split; by constructor.
  - rewrite !filter_cons_False by (rewrite ?Hc, ?Hw; simpl; tauto).
    repeat split; try done.
    + destruct ev; simpl in *; try done.
    + constructor; [by destruct ev|done].
    + intros limit. constructor; [by destruct ev|done].
Qed.

Section StagingProgress.

Context {E : Type} `{!External E}.

Variable cb : Z -> Z -> M E unit.
Hypothesis cb_wellBehaved : wellBehaved cb.

Implicit Types (t : TaskLocalFile E) (w : World E) (p : list Byte.byte).

(** One [WriteAt] under a well-behaved callback. *)
Lemma WriteAt_step t p off w :
  progressCallback t = Some cb ->
  let answer := fst (file_WriteAt (file t) p off (env w)) in
  exists r t1 w1 (tr1 : list event),
    WriteAt t p off w = (Ret (r, t1), w1) /\
    trace w1 = trace w ++ writeEvent t p off w :: tr1 /\
    progressCallback t1 = Some cb /\ size t1 = size t /\
    callbackInterval t1 = callbackInterval t /\
    written tr1 = 0 /\ writeCalls tr1 = 0%nat /\ Forall okWrite tr1 /\
    (forall limit, Forall (writeWithin limit) tr1) /\
    (snd answer = None ->
       let total := Int64.wrap (done t + fst answer) in
       done t1 = total /\
       ((nextCallbackAt t <= total /\
         nextCallbackAt t1 = Int64.wrap (nextCallbackAt t + callbackInterval t) /\
         callbackCalls tr1 = 1%nat) \/
        (total < nextCallbackAt t /\
         nextCallbackAt t1 = nextCallbackAt t /\
         callbackCalls tr1 = 0%nat))).
Proof.
  intros Hcb answer.
  destruct (snd answer) as [err|] eqn:Hr; subst answer.
  - rewrite (WriteAt_failed t p off w err Hr).
    do 3 eexists. exists []. split; [reflexivity|].
    do 7 (split; [by repeat constructor|]).
    split; [by intros limit|]. discriminate.
  - destruct (Z.le_gt_cases (nextCallbackAt t)
                (Int64.wrap (done t
                   + fst (fst (file_WriteAt (file t) p off (env w))))))
      as [Hge|Hlt].
    + destruct (WriteAt_fires t p off w cb Hr Hcb cb_wellBehaved Hge)
        as (e' & evs & Hrun & Hquiet).
      destruct (quiet_records evs Hquiet) as (Hc & Hw & Hn & Hok & Hin).
      rewrite Hrun. do 3 eexists. eexists (EvCallback _ _ :: evs).
      split; [reflexivity|]. split; [reflexivity|].
      do 3 (split; [done|]).
      split; [done|]. split; [done|].
      split; [by constructor|].
      split; [intros limit; by constructor|].
      intros _. split; [done|]. left.
      split; [done|]. split; [done|].
      unfold callbackCalls in *. rewrite filter_cons_True by done.
      simpl. by rewrite Hc.
    + rewrite (WriteAt_below t p off w Hr) by lia.
      do 3 eexists. exists []. split; [reflexivity|].
      split; [reflexivity|].
      do 3 (split; [done|]).
      split; [done|]. split; [done|]. split; [constructor|].
      split; [by intros limit|].
      intros _. split; [done|]. right. by repeat split; try lia.
Qed.

(** A run of writes under a well-behaved callback returns. *)
Lemma writeAll_returns ws : forall t w,
  progressCallback t = Some cb ->
  exists t' w' (tr : list event),
    writeAll t ws w = (Ret t', w') /\ trace w' = trace w ++ tr.
Proof.
  induction ws as [|[p off] ws IH]; intros t w Hcb.
  - exists t, w, []. by rewrite app_nil_r.
  - destruct (WriteAt_step t p off w Hcb)
      as (r & t1 & w1 & tr1 & Hrun & Htr & Hcb1 & _).
    destruct (IH t1 w1 Hcb1) as (t' & w' & tr & Hrun' & Htr').
    exists t', w'. eexists. simpl. run. rewrite Hrun. simpl.
    split; [exact Hrun'|]. by rewrite Htr', Htr, <- app_assoc.
Qed.

End StagingProgress.

Section StagingCount.

Context {E : Type} `{!External E}.

Variable cb : Z -> Z -> M E unit.
Hypothesis cb_wellBehaved : wellBehaved cb.

(** The declared size and the interval. *)
Variables S I : Z.
Hypothesis interval_pos : 1 <= I.
Hypothesis no_overflow : S + I <= Int64.max_int.

Implicit Types (t : TaskLocalFile E) (w : World E).

(** From a state with [fired] callbacks behind it and the threshold at
    [(fired + 1) * I]: the counter adds up the bytes, every callback
    stands for a threshold reached, no write calls it twice, and when no
    write is longer than the interval no threshold is skipped. *)
Lemma writeAll_progress ws : forall t w t' w' (tr : list event) D (fired : nat),
  progressCallback t = Some cb -> size t = S -> callbackInterval t = I ->
  done t = D -> nextCallbackAt t = (Z.of_nat fired + 1) * I ->
  0 <= D -> Z.of_nat fired * I <= D ->
  writeAll t ws w = (Ret t', w') -> trace w' = trace w ++ tr ->
  Forall okWrite tr -> D + written tr <= S ->
  done t' = D + written tr /\
  (Z.of_nat fired + Z.of_nat (callbackCalls tr)) * I <= D + written tr /\
  (callbackCalls tr <= writeCalls tr)%nat /\
  (D < (Z.of_nat fired + 1) * I -> Forall (writeWithin I) tr ->
   D + written tr < (Z.of_nat fired + Z.of_nat (callbackCalls tr) + 1) * I).
Proof.
  induction ws as [|[p off] ws IH];
    intros t w t' w' tr D fired Hcb Hsize Hint Hdone Hnext HD Hfired
           Hrun Htr Hok Hle.
  - simpl in Hrun. injection Hrun as <- <-.
    assert (tr = []) as ->.
    { apply (app_inv_head (trace w)). by rewrite app_nil_r. }
    change (callbackCalls []) with 0%nat. change (writeCalls []) with 0%nat.
    simpl. split; [lia|]. split; [lia|]. split; [done|]. intros; lia.
  - destruct (WriteAt_step cb cb_wellBehaved t p off w Hcb)
      as (r & t1 & w1 & tr1 & Hstep & Htr1 & Hcb1 & Hsize1 & Hint1
          & Hn1 & Hw1 & Hok1 & Hin1 & Hacct).
    simpl in Hrun. revert Hrun. run. rewrite Hstep. simpl. intros Hrun.
    destruct (writeAll_returns cb cb_wellBehaved ws t1 w1 Hcb1)
      as (t'' & w'' & tr2 & Hrun2 & Htr2).
    rewrite Hrun2 in Hrun. injection Hrun as -> ->.
    assert (tr = writeEvent t p off w :: tr1 ++ tr2) as ->.
    { apply (app_inv_head (trace w)).
      by rewrite <- Htr, Htr2, Htr1, <- app_assoc. }
    apply Forall_cons in Hok as [Hev Hok].
    apply Forall_app in Hok as [_ Hok2].
    unfold writeEvent in Hev, Hle. simpl in Hev, Hle.
    destruct Hev as [Hr Hn].
    rewrite written_app, Hn1 in Hle.
    pose proof (written_nonneg tr2 Hok2) as Hpos2.
    set (n := fst (fst (file_WriteAt (file t) p off (env w)))) in *.
    destruct (Hacct Hr) as [Hdone1 Hcases]. fold n in Hdone1, Hcases.
    rewrite Hdone in Hdone1, Hcases.
    assert (Int64.wrap (D + n) = D + n) as Hwrap.
    { apply wrap_in_range.
      unfold Int64.in_range, Int64.min_int, Int64.max_int in *. lia. }
    rewrite Hwrap in Hdone1, Hcases.
    assert (written (writeEvent t p off w :: tr1 ++ tr2) = n + written tr2)
      as Hwritten.
    { unfold writeEvent. simpl. fold n. rewrite written_app, Hn1. lia. }
    assert (writeCalls (writeEvent t p off w :: tr1 ++ tr2)
            = Datatypes.S (writeCalls tr2)) as Hcalls.
    { change (writeEvent t p off w :: tr1 ++ tr2)
        with ([writeEvent t p off w] ++ tr1 ++ tr2).
      rewrite !writeCalls_app, Hw1. done. }
    assert (callbackCalls (writeEvent t p off w :: tr1 ++ tr2)
            = (callbackCalls tr1 + callbackCalls tr2)%nat) as Hcbs.
    { change (writeEvent t p off w :: tr1 ++ tr2)
        with ([writeEvent t p off w] ++ tr1 ++ tr2).
      rewrite !callbackCalls_app. done. }
    rewrite Hwritten, Hcalls, Hcbs.
    destruct Hcases as [(Hge & Hnext1 & Hone) | (Hlt & Hnext1 & Hzero)].
    + rewrite Hnext in Hge. rewrite Hnext, Hint in Hnext1.
      rewrite wrap_in_range in Hnext1
        by (unfold Int64.in_range, Int64.min_int, Int64.max_int in *; lia).
      destruct (IH t1 w1 t' w' tr2 (D + n) (Datatypes.S fired) Hcb1
                  ltac:(congruence) ltac:(congruence) Hdone1)
        as (Hd & Hb & Hc & Hx); try done; try lia.
      rewrite Hone. split; [lia|]. split; [lia|]. split; [lia|].
      intros Hbelow Hwithin.
      apply Forall_cons in Hwithin as [Hev Hwithin].
      apply Forall_app in Hwithin as [_ Hwithin2].
      unfold writeEvent in Hev. simpl in Hev. fold n in Hev.
      specialize (Hx ltac:(lia) Hwithin2). lia.
    + rewrite Hnext in Hnext1, Hlt.
      destruct (IH t1 w1 t' w' tr2 (D + n) fired Hcb1
                  ltac:(congruence) ltac:(congruence) Hdone1)
        as (Hd & Hb & Hc & Hx); try done; try lia.
      rewrite Hzero. split; [lia|]. split; [lia|]. split; [lia|].
      intros Hbelow Hwithin.
      apply Forall_cons in Hwithin as [Hev Hwithin].
      apply Forall_app in Hwithin as [_ Hwithin2].
      specialize (Hx ltac:(lia) Hwithin2). lia.
Qed.

End StagingCount.

Lemma silent_wellBehaved : wellBehaved silent.
Proof.
  intros bytesRead contentLength w. exists (env w), [].
  rewrite app_nil_r. by destruct w.
Qed.

(** C2, as stated, fails: on a file of 100 declared bytes (interval 1),
    one write of all 100 bytes leaves the counter at 100 and has called
    the callback once, not [100 / 1] times. *)
Lemma WriteAt_single_write_fires_once :
  let '(opened, w1) :=
    NewTaskLocalFile "cache/video" 100 (Some silent) (world0 stub0) in
  match opened with
  | Ret (inl t0) =>
      let '(r, w2) := writeAll t0 [(zeros 100, 0)] w1 in
      match r with
      | Ret t =>
          Forall okWrite (since w1 w2) /\
          written (since w1 w2) = 100 /\
          done t = 100 /\
          callbackCalls (since w1 w2) = 1%nat /\
          Z.of_nat (callbackCalls (since w1 w2)) <> 100 / Z.max (100 ÷ 100) 1
      | _ => False
      end
  | _ => False
  end.
Proof.
  vm_compute. split; [repeat constructor; discriminate|].
  repeat split; congruence.
Qed.

(** C2, amended.  After a run of [WriteAt] calls on a [TaskLocalFile]
    opened with declared size [S] and a callback, all successful and
    totalling [B <= S] bytes, the counter [done] equals [B], and the
    callback has been called at most once per write and at most
    [B / interval] times, [interval = max (S / 100) 1]; it has been called
    exactly [B / interval] times when no write is longer than the
    interval.  ([S + interval] is taken to fit in an [int64].) *)
Theorem WriteAt_counts_bytes_and_thresholds
    {E : Type} `{!External E} (filePath : string) (S : Z)
    (cb : Z -> Z -> M E unit) (w0 w1 : World E) (t0 : TaskLocalFile E)
    (ws : list (list Byte.byte * Z)) :
  wellBehaved cb ->
  0 <= S -> S + Z.max (S ÷ 100) 1 <= Int64.max_int ->
  NewTaskLocalFile filePath S (Some cb) w0 = (Ret (inl t0), w1) ->
  exists t w2,
    writeAll t0 ws w1 = (Ret t, w2) /\
    let tr := since w1 w2 in
    let B := written tr in
    let interval := Z.max (S ÷ 100) 1 in
    (Forall okWrite tr -> B <= S ->
     done t = B /\
     Z.of_nat (callbackCalls tr) <= B / interval /\
     (callbackCalls tr <= writeCalls tr)%nat /\
     (Forall (writeWithin interval) tr ->
      Z.of_nat (callbackCalls tr) = B / interval)).
Proof.
  intros Hwb HS Hfit Hnew. apply NewTaskLocalFile_inv in Hnew.
  pose proof (Z.quot_pos S 100 HS ltac:(lia)) as Hq.
  assert ((if S ÷ 100 =? 0 then 1 else S ÷ 100) = Z.max (S ÷ 100) 1) as Hint.
  { destruct (Z.eqb_spec (S ÷ 100) 0); lia. }
  rewrite Hint in Hnew. set (interval := Z.max (S ÷ 100) 1) in *.
  assert (1 <= interval) as Hpos by (unfold interval; lia).
  destruct (writeAll_returns cb Hwb ws t0 w1) as (t & w2 & tr & Hrun & Htr);
    [by subst t0|].
  exists t, w2. split; [done|]. rewrite (since_app _ _ _ Htr). cbv zeta.
  intros Hok Hle.
  destruct (writeAll_progress cb Hwb S interval Hpos Hfit ws
              t0 w1 t w2 tr 0 O)
    as (Hd & Hb & Hc & Hx); try done; try (by subst t0); try lia.
  { subst t0. simpl. lia. }
  pose proof (written_nonneg tr Hok) as HB.
  split; [lia|]. split; [|split; [done|]].
  - apply Z.div_le_lower_bound; lia.
  - intros Hwithin. specialize (Hx ltac:(lia) Hwithin).
    apply (Z.div_unique_pos _ _ _
             (written tr - Z.of_nat (callbackCalls tr) * interval)); lia.
Qed.

Lemma WriteAt_counts_bytes_and_thresholds_witness :
  exists t w2,
    writeAll file1000 [(zeros 10, 0); (zeros 5, 10); (zeros 10, 15)] opened1000
    = (Ret t, w2) /\
    done t = 25 /\
    callbackCalls (since opened1000 w2) = 2%nat /\
    Z.of_nat (callbackCalls (since opened1000 w2)) = 25 / Z.max (1000 ÷ 100) 1.
Proof.
  destruct (WriteAt_counts_bytes_and_thresholds "cache/video" 1000 silent
              (world0 stub0) opened1000 file1000
              [(zeros 10, 0); (zeros 5, 10); (zeros 10, 15)])
    as (t & w2 & Hrun & Hcount).
  - intros bytesRead contentLength w. exists (env w), [].
    rewrite app_nil_r. by destruct w.
  - lia.
  - vm_compute. discriminate.
  - reflexivity.
  - exists t, w2. split; [exact Hrun|].
    vm_compute in Hrun. injection Hrun as <- <-.
    destruct Hcount as (Hdone & _ & _ & Hexact).
    + repeat constructor; vm_compute; discriminate.
    + vm_compute. discriminate.
    + split; [exact Hdone|]. split; [reflexivity|].
      apply Hexact. repeat constructor; vm_compute; discriminate.
Defined.

(** The same three writes, run: 25 bytes, two thresholds of 10 passed. *)
Example WriteAt_three_writes :
  let '(r, w2) :=
    writeAll file1000 [(zeros 10, 0); (zeros 5, 10); (zeros 10, 15)] opened1000 in
  exists t, r = Ret t /\ done t = 25 /\ nextCallbackAt t = 30 /\
    written (since opened1000 w2) = 25 /\
    callbackCalls (since opened1000 w2) = 2%nat.
Proof. vm_compute. by eexists. Qed.

(** ** [buildProgressCallback] *)

Lemma edits_app (tr1 tr2 : list event) :
  edits (tr1 ++ tr2) = (edits tr1 + edits tr2)%nat.
Proof. unfold edits. by rewrite filter_app, length_app. Qed.

(** [100 / updateCount] stays within [-100 .. 100]. *)
Lemma hundred_quot_range (updateCount : Z) :
  updateCount <> 0 -> -100 <= 100 ÷ updateCount <= 100.
Proof.
  intros Hne.
  pose proof (Z.quot_abs 100 updateCount Hne) as Habs.
  assert (Z.abs 100 ÷ Z.abs updateCount <= 100).
  { apply Z.quot_le_upper_bound; lia. }
  lia.
Qed.

Section ProgressReporterFacts.

Context {E : Type}.

Variable unrepresentable : float -> Z.

(** One call of the closure: the trace line, then one update when the
    guard lets it through and nothing more otherwise; the environment is
    not touched. *)
Lemma buildProgressCallback_run task updateCount bytesRead contentLength
    (w : World E) :
  let line :=
    EvLog Trace "Downloading %s: %.2f%%"
      [ArgTask task; ArgFloat (progressOf bytesRead contentLength)] in
  let update :=
    EvEditMessage (ReplyChatID task) (ReplyMessageID task) bytesRead
      (progressOf bytesRead contentLength) in
  exists r (tr : list event),
    buildProgressCallback unrepresentable task updateCount
      bytesRead contentLength w
    = (r, {| env := env w; trace := trace w ++ line :: tr |}) /\
    ((due unrepresentable task updateCount bytesRead contentLength /\
      tr = [update] /\ r = Ret tt) \/
     (~ due unrepresentable task updateCount bytesRead contentLength /\
      tr = [] /\
      (FileSize (TaskFile task) < MiB 50 -> r = Ret tt))).
Proof.
  intros line update. unfold buildProgressCallback, due, progressIntOf. run.
  fold line. fold update.
  set (progressInt :=
         Float64.to_int unrepresentable (progressOf bytesRead contentLength)).
  destruct (Z.ltb_spec (FileSize (TaskFile task)) (MiB 50)) as [Hsmall|Hbig].
  { do 2 eexists. split; [reflexivity|]. right.
    split; [lia|]. by split. }
  destruct (Z.eqb_spec progressInt 0) as [Hzero|Hnz].
  { do 2 eexists. split; [reflexivity|]. right.
    split; [tauto|]. split; [done|lia]. }
  unfold intDiv.
  destruct (Z.eqb_spec updateCount 0) as [->|Hu].
  { do 2 eexists. split; [reflexivity|]. right.
    split; [|split; [done|lia]].
    intros (_ & _ & Hdiv). apply Z.divide_0_l in Hdiv. done. }
  run. rewrite wrap_in_range
    by (pose proof (hundred_quot_range updateCount Hu);
        unfold Int64.in_range, Int64.min_int, Int64.max_int; lia).
  unfold intRem.
  destruct (Z.eqb_spec (100 ÷ updateCount) 0) as [Hstep|Hstep].
  { do 2 eexists. split; [reflexivity|]. right.
    split; [|split; [done|lia]].
    intros (_ & _ & Hdiv). rewrite Hstep in Hdiv.
    apply Z.divide_0_l in Hdiv. done. }
  run.
  destruct (Z.eqb_spec (Z.rem progressInt (100 ÷ updateCount)) 0) as [Hrem|Hrem];
    simpl.
  - do 2 eexists. split; [by rewrite <- app_assoc|]. left.
    split; [|done]. split; [done|]. split; [done|].
    by apply Z.rem_divide.
  - do 2 eexists. split; [reflexivity|]. right.
    split; [|split; [done|lia]].
    intros (_ & _ & Hdiv). by apply Z.rem_divide in Hdiv.
Qed.

(** Under 50 MiB a run of calls returns and sends nothing. *)
Lemma feed_small_file task updateCount contentLength increments :
  FileSize (TaskFile task) < MiB 50 ->
  forall bytesRead (w : World E),
  exists w' (tr : list event),
    feed (buildProgressCallback unrepresentable task updateCount)
      contentLength bytesRead increments w = (Ret tt, w') /\
    trace w' = trace w ++ tr /\ edits tr = 0%nat.
Proof.
  intros Hsmall.
  induction increments as [|n rest IH]; intros bytesRead w.
  - exists w, []. by rewrite app_nil_r.
  - simpl. run.
    destruct (buildProgressCallback_run task updateCount
                (bytesRead + n) contentLength w)
      as (r & tr & Hrun & [(Hdue & _) | (_ & -> & Hret)]).
    { destruct Hdue as [Hbig _]. lia. }
    rewrite Hrun, (Hret Hsmall).
    edestruct (IH (bytesRead + n)) as (w' & tr' & Hrun' & Htr' & Hnone).
    exists w'. eexists. split; [exact Hrun'|]. simpl in Htr'.
    split; [by rewrite Htr', <- app_assoc|].
    by rewrite edits_app, Hnone.
Qed.

End ProgressReporterFacts.

(** The truncated percentage against the exact one, by running the code
    on every pair: up to a length of 200 it is the exact floor or one
    below. *)
Lemma nearExactUpTo_200 : nearExactUpTo 200 = true.
Proof. by vm_compute. Qed.

Lemma progressIntOf_near_exact (unrepresentable : float -> Z)
    (bytesRead contentLength : Z) :
  0 <= bytesRead <= contentLength -> 0 < contentLength <= 200 ->
  exactPercent bytesRead contentLength - 1
    <= progressIntOf unrepresentable bytesRead contentLength
    <= exactPercent bytesRead contentLength.
Proof.
  intros Hread Hlength.
  pose proof nearExactUpTo_200 as Hgrid. unfold nearExactUpTo in Hgrid.
  rewrite forallb_forall in Hgrid.
  specialize (Hgrid contentLength).
  rewrite forallb_forall in Hgrid.
  specialize (Hgrid ltac:(apply list_elem_of_In, elem_of_seqZ; lia) bytesRead
                    ltac:(apply list_elem_of_In, elem_of_seqZ; lia)).
  unfold nearExact in Hgrid. unfold progressIntOf, Float64.to_int.
  destruct (Float64.truncate (progressOf bytesRead contentLength)) as [p|];
    [|discriminate].
  apply andb_true_iff in Hgrid as [Hlow Hhigh].
  apply Z.leb_le in Hlow, Hhigh.
  assert (0 <= exactPercent bytesRead contentLength <= 100) as Hexact.
  { unfold exactPercent. split.
    - apply Z.div_pos; lia.
    - apply Z.div_le_upper_bound; lia. }
  assert ((Int64.min_int <=? p) && (p <=? Int64.max_int) = true) as ->.
  { unfold Int64.min_int, Int64.max_int. apply andb_true_iff.
    split; apply Z.leb_le; lia. }
  lia.
Qed.

(** C4. A call of the closure built by [buildProgressCallback] sends a
    progress update if and only if the task's file is of 50 MiB at least,
    the binary64 value [float64(bytesRead) / float64(contentLength) * 100]
    truncated to an [int] is not zero, and that integer is a multiple of
    [100 / updateCount]; it never sends more than one.  For a file under
    50 MiB no run of byte increments sends any.  The truncated value is
    the exact floor of the percentage or one below it, for every length
    up to 200 and every count of bytes up to the length.  (When the guard
    reaches a zero divisor, [updateCount] being 0 or above 100, the
    closure panics and sends nothing: zero has no non-zero multiple.) *)
Theorem buildProgressCallback_sends_iff_truncated_product_due
    {E : Type} (unrepresentable : float -> Z) (task : Task)
    (updateCount bytesRead contentLength : Z) (w : World E) :
  let callback := buildProgressCallback unrepresentable task updateCount in
  let w' := snd (callback bytesRead contentLength w) in
  let progressInt :=
    Float64.to_int unrepresentable
      (Float64.of_int64 bytesRead / Float64.of_int64 contentLength * 100)%float in
  (edits (since w w') = 1%nat <->
   MiB 50 <= FileSize (TaskFile task) /\ progressInt <> 0 /\
   (100 ÷ updateCount | progressInt)) /\
  (edits (since w w') <= 1)%nat /\
  (FileSize (TaskFile task) < MiB 50 ->
   forall increments bytesRead0,
   exists w'',
     feed callback contentLength bytesRead0 increments w = (Ret tt, w'') /\
     edits (since w w'') = 0%nat) /\
  (0 <= bytesRead <= contentLength -> 0 < contentLength <= 200 ->
   exactPercent bytesRead contentLength - 1 <= progressInt
     <= exactPercent bytesRead contentLength).
Proof.
  intros callback w' progressInt. subst callback w' progressInt.
  change (Float64.to_int unrepresentable
            (Float64.of_int64 bytesRead / Float64.of_int64 contentLength * 100)%float)
    with (progressIntOf unrepresentable bytesRead contentLength).
  fold (due unrepresentable task updateCount bytesRead contentLength).
  destruct (buildProgressCallback_run unrepresentable task updateCount
              bytesRead contentLength w)
    as (r & tr & Hrun & Hcases).
  rewrite Hrun. simpl.
  erewrite since_app by reflexivity.
  split; [|split; [|split]].
  - destruct Hcases as [(Hdue & -> & _) | (Hno & -> & _)].
    + by split.
    + split; [discriminate|done].
  - destruct Hcases as [(_ & -> & _) | (_ & -> & _)];
      unfold edits; simpl; lia.
  - intros Hsmall increments bytesRead0.
    destruct (feed_small_file unrepresentable task updateCount contentLength
                increments Hsmall bytesRead0 w)
      as (w'' & tr' & Hfeed & Htr & Hnone).
    exists w''. split; [done|]. by rewrite (since_app _ _ _ Htr).
  - apply progressIntOf_near_exact.
Qed.

(** C4 as stated, on a file of 2 000 000 000 bytes ([updateCount] 50, a
    step of 2) when 1 160 000 000 bytes have been read: the exact
    percentage is 58, not zero and a multiple of 2, and no update is
    sent; the binary64 product is 57.99999999999999, truncated to 57. *)
Lemma buildProgressCallback_exact_multiple_not_sent :
  let task :=
    {| TaskFile := {| Location := 1; FileSize := 2000000000;
                      FileName := "video" |};
       StorageName := "local"; StoragePath := "/data/video";
       StartTime := 0; ReplyChatID := 7; ReplyMessageID := 42 |} in
  let updateCount := getProgressUpdateCount (FileSize (TaskFile task)) in
  let w := world0 stub0 in
  let w' :=
    snd (buildProgressCallback (fun _ => Int64.min_int) task updateCount
           1160000000 2000000000 w) in
  exactPercent 1160000000 2000000000 = 58 /\
  progressIntOf (fun _ => Int64.min_int) 1160000000 2000000000 = 57 /\
  edits (since w w') = 0%nat /\
  ~ (edits (since w w') = 1%nat <->
     MiB 50 <= FileSize (TaskFile task) /\
     exactPercent 1160000000 2000000000 <> 0 /\
     (100 ÷ updateCount | exactPercent 1160000000 2000000000)).
Proof.
  intros task updateCount w w'.
  assert (edits (since w w') = 0%nat) as Hnone by (by vm_compute).
  split; [by vm_compute|]. split; [by vm_compute|]. split; [done|].
  intros [_ Hsend]. rewrite Hnone in Hsend.
  enough (0%nat = 1%nat) by discriminate. apply Hsend.
  split; [by vm_compute|]. split; [by vm_compute|].
  exists 29. by vm_compute.
Qed.

(** The percentage is truncated from the binary64 product: 58 bytes of
    100 give 57, 20 of 100 give 20. *)
Example progressIntOf_rounding :
  progressIntOf (fun _ => Int64.min_int) 58 100 = 57 /\
  progressIntOf (fun _ => Int64.min_int) 20 100 = 20 /\
  progressIntOf (fun _ => Int64.min_int) 100 100 = 100 /\
  progressIntOf (fun _ => Int64.min_int) 1 0 = Int64.min_int.
Proof. by vm_compute. Qed.

(** A 600 MiB download with [updateCount = 20]: an update at 5%, none
    at 6%. *)
Example buildProgressCallback_ticks :
  let task :=
    {| TaskFile := {| Location := 1; FileSize := MiB 600; FileName := "video" |};
       StorageName := "local"; StoragePath := "/data/video";
       StartTime := 0; ReplyChatID := 7; ReplyMessageID := 42 |} in
  let callback :=
    buildProgressCallback (E := Stub) (fun _ => Int64.min_int) task
      (getProgressUpdateCount (MiB 600)) in
  edits (trace (snd (callback (MiB 30) (MiB 600) (world0 stub0)))) = 1%nat /\
  edits (trace (snd (callback (MiB 36) (MiB 600) (world0 stub0)))) = 0%nat.
Proof. by vm_compute. Qed.

(** A 10 MiB photo: five calls in a row, not one update. *)
Example buildProgressCallback_small_file :
  let callback :=
    buildProgressCallback (E := Stub) (fun _ => Int64.min_int) task0
      (getProgressUpdateCount (MiB 10)) in
  let w := world0 stub0 in
  let '(r, w') :=
    feed callback (MiB 10) 0 [MiB 2; MiB 2; MiB 2; MiB 2; MiB 2] w in
  r = Ret tt /\ edits (since w w') = 0%nat /\ logCalls (since w w') = 5%nat.
Proof. by vm_compute. Qed.

(** * Further properties *)

(** ** [saveFileWithRetry] on an arbitrary backend *)

Section SaveRetrierOutcome.

Context {E : Type} `{!Storage E}.

Variables (localFilePath storagePath : string).

(** Among the first [n + 1] attempts either all fail or one succeeds. *)
Lemma attempts_fail_or_succeed n (e : E) :
  (forall j, (j <= n)%nat -> attempt localFilePath storagePath j e <> None) \/
  (exists j, (j <= n)%nat /\ attempt localFilePath storagePath j e = None).
Proof.
  induction n as [|n [Hall | (j & Hj & Hnone)]].
  - destruct (attempt localFilePath storagePath 0 e) as [err|] eqn:H0.
    + left. intros j Hj. replace j with 0%nat by lia. by rewrite H0.
    + right. exists 0%nat. by split.
  - destruct (attempt localFilePath storagePath (S n) e) as [err|] eqn:HS.
    + left. intros j Hj. destruct (decide (j = S n)) as [->|Hne].
      * by rewrite HS.
      * apply Hall. lia.
    + right. exists (S n). by split.
  - right. exists j. split; [lia|done].
Qed.

(** A successful attempt has a first one before or at it. *)
Lemma first_success j : forall (e : E),
  attempt localFilePath storagePath j e = None ->
  exists k, (k <= j)%nat /\ failsThenSucceeds localFilePath storagePath k e.
Proof.
  induction j as [|j IH]; intros e Hnone.
  - exists 0%nat. by split.
  - destruct (fst (Save localFilePath storagePath e)) as [err|] eqn:H0.
    + destruct (IH _ Hnone) as (k & Hk & Hfail).
      exists (S k). split; [lia|]. simpl. rewrite H0. by split.
    + exists 0%nat. split; [lia|done].
Qed.

End SaveRetrierOutcome.

(** X1. For every backend and every retry limit from 0 up,
    [saveFileWithRetry] returns; it returns [nil] exactly when one of the
    first [Retry + 1] answers of the backend is a success; it calls [Save]
    at least once and at most [Retry + 1] times, and logs one line for
    every call but the last. *)
Theorem saveFileWithRetry_nil_iff_an_attempt_succeeds
    {E : Type} `{!Storage E} (cfg : Config) (task : Task)
    (localFilePath : string) (w : World E) :
  Int64.in_range (Retry cfg) -> 0 <= Retry cfg ->
  exists r w',
    saveFileWithRetry cfg task localFilePath w = (Ret r, w') /\
    (r = None <->
     exists j, (j <= Z.to_nat (Retry cfg))%nat /\
       attempt localFilePath (StoragePath task) j (env w) = None) /\
    (1 <= saveCalls (since w w') <= Z.to_nat (Retry cfg) + 1)%nat /\
    (logCalls (since w w') + 1 = saveCalls (since w w'))%nat.
Proof.
  intros Hr Hpos. unfold saveFileWithRetry.
  destruct (attempts_fail_or_succeed localFilePath (StoragePath task)
              (Z.to_nat (Retry cfg)) (env w)) as [Hall | (j & Hj & Hnone)].
  - destruct (retryLoop_exhausts cfg task localFilePath (Z.to_nat (Retry cfg))
                (Z.to_nat (Retry cfg + 1) + 1) 0 w)
      as (err & w' & Hatt & Hrun & tr & Htr & Hs & Hl); try done; try lia.
    do 2 eexists. split; [exact Hrun|]. rewrite (since_app _ _ _ Htr).
    split; [|lia]. split; [discriminate|].
    intros (j & Hj & Hnone). by destruct (Hall j Hj).
  - destruct (first_success localFilePath (StoragePath task) j (env w) Hnone)
      as (k & Hk & Hfail).
    destruct (retryLoop_succeeds cfg task localFilePath k
                (Z.to_nat (Retry cfg + 1) + 1) 0 w)
      as (w' & Hrun & tr & Htr & Hs & Hl); try done; try lia.
    do 2 eexists. split; [exact Hrun|]. rewrite (since_app _ _ _ Htr).
    split; [|lia]. split; [|done]. intros _. by exists j.
Qed.

Lemma saveFileWithRetry_nil_iff_an_attempt_succeeds_witness :
  let w := world0 (set_saves [Some boom; None] stub0) in
  exists r w',
    saveFileWithRetry cfg0 task0 "cache/photo" w = (Ret r, w') /\
    (r = None <->
     exists j, (j <= Z.to_nat (Retry cfg0))%nat /\
       attempt "cache/photo" (StoragePath task0) j (env w) = None) /\
    (1 <= saveCalls (since w w') <= Z.to_nat (Retry cfg0) + 1)%nat /\
    (logCalls (since w w') + 1 = saveCalls (since w w'))%nat.
Proof.
  intros w.
  apply (saveFileWithRetry_nil_iff_an_attempt_succeeds cfg0 task0 "cache/photo" w).
  - unfold Int64.in_range, Int64.min_int, Int64.max_int. simpl. lia.
  - simpl. lia.
Defined.

(** ** [config.Init]: storage names and users *)

(** The loop over the storages finds no name twice exactly when the names
    are pairwise distinct and none is in the map already. *)
Lemma duplicateName_None (l : list StorageConfig) : forall storageNames : gset string,
  duplicateName storageNames l = None <->
  NoDup (map GetName l) /\ forall name, name ∈ map GetName l -> name ∉ storageNames.
Proof.
  induction l as [|storage l IH]; intros storageNames; simpl.
  - split; [|done]. intros _. split; [constructor|]. intros name Hin.
    by apply elem_of_nil in Hin.
  - destruct (decide (GetName storage ∈ storageNames)) as [Hin|Hnotin].
    + split; [discriminate|]. intros [_ Hfresh].
      destruct (Hfresh (GetName storage)); [left|done].
    + rewrite IH, NoDup_cons. split.
      * intros [Hnd Hfresh]. split; [split; [|done]|].
        -- intros Hdup. apply (Hfresh _ Hdup).
           apply elem_of_union. left. by apply elem_of_singleton.
        -- intros name [->|Hname]%elem_of_cons; [done|].
           intros Hseen. apply (Hfresh name Hname).
           apply elem_of_union. by right.
      * intros [[Hfirst Hnd] Hfresh]. split; [done|].
        intros name Hname [->%elem_of_singleton|Hseen]%elem_of_union; [done|].
        apply (Hfresh name); [by right|done].
Qed.

(** When it finds one, the list splits at the storage it stopped on:
    that storage bears the name, which was seen before it, in the map the
    loop started from or on an earlier storage; and up to there the loop
    had found nothing. *)
Lemma duplicateName_Some (l : list StorageConfig) : forall (storageNames : gset string) name,
  duplicateName storageNames l = Some name ->
  exists before storage after,
    l = before ++ storage :: after /\ GetName storage = name /\
    (name ∈ storageNames \/ name ∈ map GetName before) /\
    duplicateName storageNames before = None.
Proof.
  induction l as [|first l IH]; intros storageNames name; simpl; [discriminate|].
  destruct (decide (GetName first ∈ storageNames)) as [Hin|Hnotin].
  - intros [= <-]. exists [], first, l. repeat split; [by left].
  - intros Hdup.
    destruct (IH _ _ Hdup) as (before & storage & after & -> & Hname & Hseen & Hnone).
    exists (first :: before), storage, after.
    split; [done|]. split; [done|]. split.
    + destruct Hseen as [[->%elem_of_singleton|Hseen]%elem_of_union|Hseen].
      * right. by left.
      * by left.
      * right. by right.
    + simpl. by destruct (decide (GetName first ∈ storageNames)).
Qed.

(** X2. When [Init] returns [nil], the storages it leaves in [Cfg] have
    pairwise distinct names. *)
Theorem Init_nil_storage_names_distinct
    (transformDeprecatedStorageConfig :
       string -> list StorageConfig -> list StorageConfig)
    (v : Viper) (Cfg0 Cfg : option Config) :
  Init transformDeprecatedStorageConfig v Cfg0 = InitReturn None Cfg ->
  exists c, Cfg = Some c /\ NoDup (map GetName (Storages c)).
Proof.
  unfold Init. intros Hnil.
  repeat case_match; simplify_eq; eexists; (split; [reflexivity|]);
    match goal with
    | H : duplicateName ∅ _ = None |- _ =>
        apply duplicateName_None in H as [Hnd _]; exact Hnd
    end.
Qed.

Lemma Init_nil_storage_names_distinct_witness :
  exists c,
    Some (set_Storages [ {| GetName := "disk"; GetType := "local" |};
                         {| GetName := "dav"; GetType := "webdav" |} ] cfg0)
    = Some c /\
    NoDup (map GetName (Storages c)).
Proof.
  apply (Init_nil_storage_names_distinct (fun _ l => l)
           {| SafeWriteConfigAs := WriteOk;
              ReadInConfig := None;
              Unmarshal := inl cfg0;
              LoadStorageConfigs :=
                inl [ {| GetName := "disk"; GetType := "local" |};
                      {| GetName := "dav"; GetType := "webdav" |} ] |}
           None).
  vm_compute. reflexivity.
Defined.

(** X3. Two storages of the same name make [Init] return the
    duplicate-name error, whatever the worker and retry counts, and the
    name in it is a shared one: the list splits at a storage that bears
    this name and comes after another storage bearing it, the storages
    before it having pairwise distinct names. *)
Theorem Init_duplicate_storage_name
    (transformDeprecatedStorageConfig :
       string -> list StorageConfig -> list StorageConfig)
    (v : Viper) (Cfg0 : option Config) (c : Config)
    (storagesConfig : list StorageConfig) :
  (forall err, SafeWriteConfigAs v <> WriteFailed err) ->
  ReadInConfig v = None -> Unmarshal v = inl c ->
  LoadStorageConfigs v = inl storagesConfig ->
  let final := checkedConfig transformDeprecatedStorageConfig c storagesConfig in
  ~ NoDup (map GetName (Storages final)) ->
  exists before storage after earlier,
    Storages final = before ++ storage :: after /\
    earlier ∈ before /\ GetName earlier = GetName storage /\
    NoDup (map GetName before) /\
    Init transformDeprecatedStorageConfig v Cfg0
    = InitReturn
        (Some (errorString ("重复的存储名: " +:+ GetName storage))) (Some final).
Proof.
  intros Hw Hread Hdec Hload final Hdup.
  rewrite (Init_decoded transformDeprecatedStorageConfig v Cfg0 c storagesConfig);
    try done.
  2: { destruct (SafeWriteConfigAs v) as [| |err]; [by left|by right|].
       by destruct (Hw err). }
  fold final.
  destruct (duplicateName ∅ (Storages final)) as [name|] eqn:Hname.
  - apply duplicateName_Some in Hname
      as (before & storage & after & Hsplit & <- & Hseen & Hnone).
    destruct Hseen as [Hseen|Hseen]; [by apply elem_of_empty in Hseen|].
    apply list_elem_of_In, in_map_iff in Hseen as (earlier & Hsame & Hearlier).
    apply list_elem_of_In in Hearlier.
    apply duplicateName_None in Hnone as [Hnd _].
    by exists before, storage, after, earlier.
  - apply duplicateName_None in Hname as [Hnd _]. by destruct Hdup.
Qed.

Lemma Init_duplicate_storage_name_witness :
  let twice := [ {| GetName := "dav"; GetType := "webdav" |};
                 {| GetName := "disk"; GetType := "local" |};
                 {| GetName := "disk"; GetType := "webdav" |} ] in
  let v := {| SafeWriteConfigAs := ConfigFileAlreadyExistsError;
              ReadInConfig := None;
              Unmarshal := inl cfg0;
              LoadStorageConfigs := inl twice |} in
  let final := checkedConfig (fun _ l => l) cfg0 twice in
  exists before storage after earlier,
    Storages final = before ++ storage :: after /\
    earlier ∈ before /\ GetName earlier = GetName storage /\
    NoDup (map GetName before) /\
    Init (fun _ l => l) v None
    = InitReturn
        (Some (errorString ("重复的存储名: " +:+ GetName storage))) (Some final).
Proof.
  intros twice v final.
  apply (Init_duplicate_storage_name (fun _ l => l) v None cfg0 twice);
    try reflexivity.
  - intros err. discriminate.
  - vm_compute. intros Hnd. apply NoDup_cons in Hnd as [_ Hnd].
    apply NoDup_cons in Hnd as [Hnotin _].
    apply Hnotin. by left.
Defined.

(** The three storages above: the error names "disk", met on the third
    storage, not "dav". *)
Example Init_names_the_repeated_storage :
  let twice := [ {| GetName := "dav"; GetType := "webdav" |};
                 {| GetName := "disk"; GetType := "local" |};
                 {| GetName := "disk"; GetType := "webdav" |} ] in
  Init (fun _ l => l)
    {| SafeWriteConfigAs := ConfigFileAlreadyExistsError;
       ReadInConfig := None;
       Unmarshal := inl cfg0;
       LoadStorageConfigs := inl twice |} None
  = InitReturn (Some (errorString ("重复的存储名: " +:+ "disk")))
      (Some (set_Storages twice cfg0)).
Proof. by vm_compute. Qed.

(** X4. On every path on which [Init] returns after decoding, the
    configuration it leaves in [Cfg] is the decoded one in all fields but
    two: the users, to which one blacklist user with no storages is added
    per legacy admin, in order, and the storages. *)
Theorem Init_touches_users_and_storages_only
    (transformDeprecatedStorageConfig :
       string -> list StorageConfig -> list StorageConfig)
    (v : Viper) (Cfg0 : option Config) (r : option error) (c0 c : Config) :
  (forall err, SafeWriteConfigAs v <> WriteFailed err) ->
  Unmarshal v = inl c0 ->
  Init transformDeprecatedStorageConfig v Cfg0 = InitReturn r (Some c) ->
  Users c = Users c0 ++
            map (fun admin => {| ID := admin; UserStorages := [];
                                 Blacklist := true |})
                (default [] (Admins (Telegram c0))) /\
  Workers c = Workers c0 /\ Retry c = Retry c0 /\ Threads c = Threads c0 /\
  Temp c = Temp c0 /\ Telegram c = Telegram c0 /\
  DeprecatedStorage c = DeprecatedStorage c0.
Proof.
  intros Hw Hdec. unfold Init. rewrite Hdec. intros Hret.
  destruct (SafeWriteConfigAs v) as [| |err]; [| |by destruct (Hw err)];
    (destruct (ReadInConfig v); [discriminate|]);
    repeat case_match; simplify_eq; simpl;
    rewrite ?app_nil_r; done.
Qed.

Lemma Init_touches_users_and_storages_only_witness :
  let decoded :=
    {| Workers := 3; Retry := 3; Threads := 4;
       Users := [ {| ID := 5; UserStorages := ["disk"]; Blacklist := false |} ];
       Temp := {| BasePath := "cache/"; CacheTTL := 3600 |};
       Telegram := {| Admins := Some [11; 12] |};
       Storages := []; DeprecatedStorage := None |} in
  let c := set_Storages [ {| GetName := "disk"; GetType := "local" |} ]
             (set_Users
                [ {| ID := 5; UserStorages := ["disk"]; Blacklist := false |};
                  {| ID := 11; UserStorages := []; Blacklist := true |};
                  {| ID := 12; UserStorages := []; Blacklist := true |} ]
                decoded) in
  Users c = Users decoded ++
            map (fun admin => {| ID := admin; UserStorages := [];
                                 Blacklist := true |})
                (default [] (Admins (Telegram decoded))) /\
  Workers c = Workers decoded /\ Retry c = Retry decoded /\
  Threads c = Threads decoded /\
  Temp c = Temp decoded /\ Telegram c = Telegram decoded /\
  DeprecatedStorage c = DeprecatedStorage decoded.
Proof.
  intros decoded c.
  apply (Init_touches_users_and_storages_only (fun _ l => l)
           {| SafeWriteConfigAs := WriteOk;
              ReadInConfig := None;
              Unmarshal := inl decoded;
              LoadStorageConfigs :=
                inl [ {| GetName := "disk"; GetType := "local" |} ] |}
           None None decoded c).
  - intros err. discriminate.
  - reflexivity.
  - vm_compute. reflexivity.
Defined.

(** ** [config.ReloadConfig] *)

(** X5. [ReloadConfig] installs whatever decodes without the check that
    [Init] makes: when its three steps succeed it returns [nil] with the
    decoded configuration in [Cfg], and if that one has a retry limit below
    1, [saveFileWithRetry] stops after at most one call of [Save], whatever
    the backend answers. *)
Theorem ReloadConfig_installs_unchecked
    (v : ViperReload) (Cfg : option Config) (c : Config) :
  Reload_WriteConfig v = None -> Reload_ReadInConfig v = None ->
  Reload_Unmarshal v Cfg = (Some c, None) ->
  ReloadConfig v Cfg = (None, Some c) /\
  (Retry c < 1 -> Int64.in_range (Retry c) ->
   forall (E : Type) (backend : Storage E) (task : Task)
          (localFilePath : string) (w : World E),
   exists r w',
     saveFileWithRetry c task localFilePath w = (Ret r, w') /\
     (saveCalls (since w w') <= 1)%nat /\
     (Retry c < 0 -> r = None /\ w' = w)).
Proof.
  intros Hwrite Hread Hdec. split.
  - unfold ReloadConfig. by rewrite Hwrite, Hread, Hdec.
  - intros Hsmall Hr E backend task localFilePath w.
    destruct (Z.lt_ge_cases (Retry c) 0) as [Hneg|Hzero].
    + exists None, w.
      split; [by apply saveFileWithRetry_negative_limit|].
      unfold since. rewrite drop_all.
      split; [unfold saveCalls; simpl; lia|done].
    + destruct (retryLoop_returns c task localFilePath
                  (Z.to_nat (Retry c + 1) + 1) 0 w)
        as (r & w' & tr & Hrun & Htr & _ & Hn & _); try done; try lia.
      exists r, w'. split; [exact Hrun|].
      rewrite (since_app _ _ _ Htr). split; [lia|lia].
Qed.

Lemma ReloadConfig_installs_unchecked_witness :
  let v := {| Reload_WriteConfig := None;
              Reload_ReadInConfig := None;
              Reload_Unmarshal := fun _ => (Some (set_Retry 0 cfg0), None) |} in
  ReloadConfig v (Some cfg0) = (None, Some (set_Retry 0 cfg0)) /\
  (Retry (set_Retry 0 cfg0) < 1 -> Int64.in_range (Retry (set_Retry 0 cfg0)) ->
   forall (E : Type) (backend : Storage E) (task : Task)
          (localFilePath : string) (w : World E),
   exists r w',
     saveFileWithRetry (set_Retry 0 cfg0) task localFilePath w = (Ret r, w') /\
     (saveCalls (since w w') <= 1)%nat /\
     (Retry (set_Retry 0 cfg0) < 0 -> r = None /\ w' = w)).
Proof.
  intros v.
  apply (ReloadConfig_installs_unchecked v (Some cfg0) (set_Retry 0 cfg0));
    reflexivity.
Defined.

(** The first step that fails ends [ReloadConfig] with its error. *)
Example ReloadConfig_read_fails :
  ReloadConfig {| Reload_WriteConfig := None;
                  Reload_ReadInConfig := Some boom;
                  Reload_Unmarshal := fun _ => (Some (set_Retry 0 cfg0), None) |}
    (Some cfg0)
  = (Some boom, Some cfg0).
Proof. reflexivity. Qed.

(** ** [processPhoto]: when the backend is reached *)

(** X6. [processPhoto] always returns.  It calls [Save] only after the
    fetch has handed back a file and [os.WriteFile] has staged it; a failed
    fetch or a failed staging write comes back wrapped in its own message,
    with no [Save] call made. *)
Theorem processPhoto_saves_only_once_staged
    {E : Type} `{!Storage E} `{!External E}
    (cfg : Config) (task : Task) (cachePath : string) (w : World E) :
  Int64.in_range (Retry cfg) ->
  let fetched := UploadGetFile (Location (TaskFile task)) 0 (1024 * 1024) (env w) in
  exists r w',
    processPhoto cfg task cachePath w = (Ret r, w') /\
    ((1 <= saveCalls (since w w'))%nat ->
     exists bytes,
       fst fetched = UploadFile bytes /\
       fst (os_WriteFile cachePath bytes (snd fetched)) = None) /\
    (forall err,
       fst fetched = UploadErr err ->
       r = Some (wrapError "failed to get file: " err) /\
       saveCalls (since w w') = 0%nat) /\
    (forall bytes err,
       fst fetched = UploadFile bytes ->
       fst (os_WriteFile cachePath bytes (snd fetched)) = Some err ->
       r = Some (wrapError "failed to write file: " err) /\
       saveCalls (since w w') = 0%nat).
Proof.
  intros Hr fetched.
  unfold processPhoto, callUploadGetFile. run. fold fetched.
  destruct fetched as [[err|bytes|typeName] e1]; simpl.
  - do 2 eexists. split; [reflexivity|].
    erewrite since_app by reflexivity.
    change (saveCalls [EvUploadGetFile (Location (TaskFile task)) 0 (1024 * 1024)])
      with 0%nat.
    split; [lia|]. split; [by intros ? [= <-]|]. by intros ? ? [=].
  - unfold callWriteFile. run.
    destruct (os_WriteFile cachePath bytes e1) as [[err|] e2] eqn:Hwf; simpl.
    + do 2 eexists. split; [reflexivity|].
      rewrite <- app_assoc. erewrite since_app by reflexivity.
      change (saveCalls
                ([EvUploadGetFile (Location (TaskFile task)) 0 (1024 * 1024)] ++
                 [EvWriteFile cachePath bytes (Some err)]))
        with 0%nat.
      split; [lia|]. split; [by intros ? [=]|].
      intros ? ? [= <-] Heq. rewrite Hwf in Heq. by injection Heq as <-.
    + unfold defer. run. rewrite <- !app_assoc. simpl.
      destruct (saveFileWithRetry_returns cfg task cachePath
                  {| env := e2;
                     trace := trace w ++
                       [EvUploadGetFile (Location (TaskFile task)) 0 (1024 * 1024);
                        EvWriteFile cachePath bytes None;
                        EvLog Info "Downloaded file: %s" [ArgStr cachePath]] |} Hr)
        as (r & w1 & tr & Hrun & Htr & _).
      destruct (cleanCacheFile_once cfg cachePath w1)
        as (w' & tr' & Hclean & Htr' & _).
      rewrite Hrun, Hclean. exists r, w'. split; [done|].
      split; [intros _; exists bytes; by rewrite Hwf|].
      split; [by intros ? [=]|].
      intros ? ? [= <-] Heq. rewrite Hwf in Heq. discriminate.
  - do 2 eexists. split; [reflexivity|].
    erewrite since_app by reflexivity.
    change (saveCalls [EvUploadGetFile (Location (TaskFile task)) 0 (1024 * 1024)])
      with 0%nat.
    split; [lia|]. split; [by intros ? [=]|]. by intros ? ? [=].
Qed.

Lemma processPhoto_saves_only_once_staged_witness :
  let s := {| saves := []; upload := UploadFile [Byte.x01]; writeFile := Some boom;
              remove := None; create := None; writeAt := None;
              detect := inl ".bin" |} in
  let w := world0 s in
  let fetched := UploadGetFile (Location (TaskFile task0)) 0 (1024 * 1024) (env w) in
  exists r w',
    processPhoto cfg0 task0 "cache/photo" w = (Ret r, w') /\
    ((1 <= saveCalls (since w w'))%nat ->
     exists bytes,
       fst fetched = UploadFile bytes /\
       fst (os_WriteFile "cache/photo" bytes (snd fetched)) = None) /\
    (forall err,
       fst fetched = UploadErr err ->
       r = Some (wrapError "failed to get file: " err) /\
       saveCalls (since w w') = 0%nat) /\
    (forall bytes err,
       fst fetched = UploadFile bytes ->
       fst (os_WriteFile "cache/photo" bytes (snd fetched)) = Some err ->
       r = Some (wrapError "failed to write file: " err) /\
       saveCalls (since w w') = 0%nat).
Proof.
  intros s w.
  apply (processPhoto_saves_only_once_staged cfg0 task0 "cache/photo" w).
  unfold Int64.in_range, Int64.min_int, Int64.max_int. simpl. lia.
Defined.

(** ** The parallelism policy, further *)

(** X7. [getTaskThreads] never hands out more threads than the larger of
    1 and the configured maximum; it hands out fewer than one exactly for
    files above 100 MiB under a maximum below 1 and for files between
    50 MiB and 100 MiB under a maximum below 2. *)
Theorem getTaskThreads_bounds (cfg : Config) (fileSize : Z) :
  getTaskThreads cfg fileSize <= Z.max 1 (Threads cfg) /\
  (getTaskThreads cfg fileSize < 1 <->
   (MiB 100 < fileSize /\ Threads cfg < 1) \/
   (MiB 50 < fileSize <= MiB 100 /\ Threads cfg < 2)).
Proof.
  unfold getTaskThreads, MiB.
  destruct (Z.ltb_spec (1024 * 1024 * 100) fileSize);
    [|destruct (Z.ltb_spec (1024 * 1024 * 50) fileSize)];
    Z.quot_rem_to_equations; lia.
Qed.

(** X8. The number of progress ticks never goes down as the file grows. *)
Theorem getProgressUpdateCount_monotone (s1 s2 : Z) :
  s1 <= s2 -> getProgressUpdateCount s1 <= getProgressUpdateCount s2.
Proof.
  intros Hs. unfold getProgressUpdateCount, MiB.
  repeat case_match;
    repeat match goal with
           | H : (_ <? _) = true |- _ => apply Z.ltb_lt in H
           | H : (_ <? _) = false |- _ => apply Z.ltb_ge in H
           end; lia.
Qed.

Lemma getProgressUpdateCount_monotone_witness :
  getProgressUpdateCount (MiB 300) <= getProgressUpdateCount (MiB 700).
Proof.
  apply (getProgressUpdateCount_monotone (MiB 300) (MiB 700)).
  unfold MiB. lia.
Defined.

(** ** [buildProgressCallback]: when the guard divides by zero *)

(** [100 / updateCount] is zero when [updateCount] is zero (in [Z]) or
    larger than 100 in size. *)
Lemma hundred_quot_zero (updateCount : Z) :
  100 ÷ updateCount = 0 <-> updateCount = 0 \/ 100 < Z.abs updateCount.
Proof.
  destruct (Z.eq_dec updateCount 0) as [->|Hne]; [by split; [left|]|].
  rewrite (Z.quot_small_iff 100 updateCount Hne). lia.
Qed.

(** X9. A call of the closure built by [buildProgressCallback] never
    touches the environment, and it panics (integer divide by zero) exactly
    when the file is of 50 MiB at least, the truncated percentage is not
    zero, and [updateCount] is 0 or beyond 100 in size; in every other case
    it returns. *)
Theorem buildProgressCallback_panics_iff
    {E : Type} (unrepresentable : float -> Z) (task : Task)
    (updateCount bytesRead contentLength : Z) (w : World E) :
  let run :=
    buildProgressCallback unrepresentable task updateCount
      bytesRead contentLength w in
  env (snd run) = env w /\
  ((exists msg, fst run = Panic msg) <->
   MiB 50 <= FileSize (TaskFile task) /\
   progressIntOf unrepresentable bytesRead contentLength <> 0 /\
   (updateCount = 0 \/ 100 < Z.abs updateCount)) /\
  ((~ exists msg, fst run = Panic msg) -> fst run = Ret tt).
Proof.
  intros run. subst run. unfold buildProgressCallback, progressIntOf. run.
  set (progressInt :=
         Float64.to_int unrepresentable (progressOf bytesRead contentLength)).
  rewrite <- hundred_quot_zero.
  destruct (Z.ltb_spec (FileSize (TaskFile task)) (MiB 50)) as [Hsmall|Hbig].
  { simpl. split; [done|]. split; [|done].
    split; [by intros [? [=]]|lia]. }
  destruct (Z.eqb_spec progressInt 0) as [Hzero|Hnz].
  { simpl. split; [done|]. split; [|done].
    split; [by intros [? [=]]|tauto]. }
  unfold intDiv.
  destruct (Z.eqb_spec updateCount 0) as [->|Hu].
  { simpl. split; [done|]. split; [|by intros []; eexists].
    split; [done|]. intros _. by eexists. }
  run. rewrite wrap_in_range
    by (pose proof (hundred_quot_range updateCount Hu);
        unfold Int64.in_range, Int64.min_int, Int64.max_int; lia).
  unfold intRem.
  destruct (Z.eqb_spec (100 ÷ updateCount) 0) as [Hstep|Hstep].
  { simpl. split; [done|]. split; [|by intros []; eexists].
    split; [done|]. intros _. by eexists. }
  run.
  destruct (Z.eqb_spec (Z.rem progressInt (100 ÷ updateCount)) 0); simpl;
    (split; [done|]); (split; [|done]);
    (split; [by intros [? [=]]|tauto]).
Qed.

(** X10. With the tick count that [getProgressUpdateCount] gives, for
    whatever size, the closure returns on every call; so a download whose
    ticks come from the policy is never cut short by its progress reports. *)
Theorem buildProgressCallback_with_policy_returns
    {E : Type} (unrepresentable : float -> Z) (task : Task)
    (fileSize bytesRead contentLength : Z) (w : World E) :
  fst (buildProgressCallback unrepresentable task
         (getProgressUpdateCount fileSize) bytesRead contentLength w)
  = Ret tt.
Proof.
  unfold buildProgressCallback, getProgressUpdateCount. run.
  destruct (FileSize (TaskFile task) <? MiB 50); [done|].
  destruct (Float64.to_int unrepresentable
              (progressOf bytesRead contentLength) =? 0); [done|].
  destruct (MiB 1000 <? fileSize);
    [|destruct (MiB 500 <? fileSize); [|destruct (MiB 200 <? fileSize)]];
    unfold intDiv, intRem; run;
    match goal with
    | |- context [Z.rem ?p ?q =? 0] => destruct (Z.rem p q =? 0)
    end; done.
Qed.

(** ** [TaskLocalFile]: what a run of writes leaves behind *)

Section StagingOutcome.

Context {E : Type} `{!External E}.

Implicit Types (t : TaskLocalFile E) (w : World E) (p : list Byte.byte).

(** One [WriteAt], in full, under a callback confined to [Q]. *)
Lemma WriteAt_outcome (Q : event -> Prop) t p off w cb :
  progressCallback t = Some cb -> confined Q cb ->
  let answer := fst (file_WriteAt (file t) p off (env w)) in
  let total := Int64.wrap (done t + fst answer) in
  exists t1 w1 (evs : list event),
    WriteAt t p off w = (Ret (answer, t1), w1) /\ Forall Q evs /\
    match snd answer with
    | Some _ =>
        t1 = t /\ trace w1 = trace w ++ [writeEvent t p off w]
    | None =>
        if nextCallbackAt t <=? total then
          t1 = set_nextCallbackAt
                 (Int64.wrap (nextCallbackAt t + callbackInterval t))
                 (set_done total t) /\
          trace w1 = trace w ++
            writeEvent t p off w :: EvCallback total (size t) :: evs
        else
          t1 = set_done total t /\
          trace w1 = trace w ++ [writeEvent t p off w]
    end.
Proof.
  intros Hcb Hconf answer total. subst answer total.
  destruct (snd (fst (file_WriteAt (file t) p off (env w)))) as [err|] eqn:Hr.
  - rewrite (WriteAt_failed t p off w err Hr).
    exists t,
      {| env := snd (file_WriteAt (file t) p off (env w));
         trace := trace w ++ [writeEvent t p off w] |}, [].
    split; [|by split].
    f_equal. f_equal. rewrite <- Hr.
    by destruct (fst (file_WriteAt (file t) p off (env w))).
  - destruct (Z.leb_spec (nextCallbackAt t)
                (Int64.wrap (done t
                   + fst (fst (file_WriteAt (file t) p off (env w))))))
      as [Hge|Hlt].
    + unfold WriteAt, callFileWriteAt. run.
      destruct (file_WriteAt (file t) p off (env w)) as [[n r] e1] eqn:Hfw.
      simpl in *. subst r. rewrite Hcb.
      destruct (Z.leb_spec (nextCallbackAt t) (Int64.wrap (done t + n))); [|lia].
      unfold invoke. run.
      destruct (Hconf (Int64.wrap (done t + n)) (size t)
                  {| env := e1;
                     trace := (trace w ++
                       [EvFileWriteAt (file t) (Z.of_nat (length p)) off n None]) ++
                       [EvCallback (Int64.wrap (done t + n)) (size t)] |})
        as (e' & evs & Hrun & HQ).
      rewrite Hrun. simpl. do 2 eexists. exists evs.
      split; [reflexivity|]. split; [done|]. split; [done|].
      unfold writeEvent. rewrite Hfw. simpl. by rewrite <- !app_assoc.
    + rewrite (WriteAt_below t p off w Hr) by lia.
      eexists _,
        {| env := snd (file_WriteAt (file t) p off (env w));
           trace := trace w ++ [writeEvent t p off w] |}, [].
      split; [|by split].
      f_equal. f_equal. rewrite <- Hr.
      by destruct (fst (file_WriteAt (file t) p off (env w))).
Qed.

(** A run of writes under a callback confined to [Q] returns, and its
    records all satisfy [Q] when positional writes and callback
    invocations do. *)
Lemma writeAll_confined (Q : event -> Prop) cb ws : forall t w,
  progressCallback t = Some cb -> confined Q cb ->
  (forall name len off n r, Q (EvFileWriteAt name len off n r)) ->
  (forall bytesRead contentLength, Q (EvCallback bytesRead contentLength)) ->
  exists t' w' (tr : list event),
    writeAll t ws w = (Ret t', w') /\ trace w' = trace w ++ tr /\
    Forall Q tr.
Proof.
  induction ws as [|[p off] ws IH]; intros t w Hcb Hconf HQw HQc.
  - exists t, w, []. rewrite app_nil_r. by repeat split.
  - destruct (WriteAt_outcome Q t p off w cb Hcb Hconf)
      as (t1 & w1 & evs & Hrun & Hevs & Hcase).
    assert (progressCallback t1 = Some cb /\
            exists tr1 : list event, trace w1 = trace w ++ tr1 /\ Forall Q tr1)
      as (Hcb1 & tr1 & Htr1 & HQ1).
    { destruct (snd (fst (file_WriteAt (file t) p off (env w)))).
      - destruct Hcase as [-> Htr]. split; [done|].
        eexists. split; [exact Htr|]. repeat constructor. apply HQw.
      - destruct (_ <=? _); destruct Hcase as [-> Htr]; (split; [done|]);
          (eexists; split; [exact Htr|]); repeat constructor;
          try apply HQw; try apply HQc; done. }
    destruct (IH t1 w1 Hcb1 Hconf HQw HQc) as (t' & w' & tr & Hrun' & Htr' & HQ').
    exists t', w', (tr1 ++ tr). simpl. run. rewrite Hrun. simpl.
    split; [exact Hrun'|]. split; [by rewrite Htr', Htr1, <- app_assoc|].
    by apply Forall_app.
Qed.

End StagingOutcome.

Lemma edits_none (tr : list event) :
  Forall (fun ev => isEdit ev = false) tr -> edits tr = 0%nat.
Proof.
  unfold edits. induction 1 as [|ev tr Hev _ IH]; [done|].
  by rewrite filter_cons_False by (rewrite Hev; simpl; tauto).
Qed.

(** Under 50 MiB the closure is confined to records that are no update. *)
Lemma buildProgressCallback_small_confined {E : Type}
    (unrepresentable : float -> Z) (task : Task) (updateCount : Z) :
  FileSize (TaskFile task) < MiB 50 ->
  confined (E := E) (fun ev => isEdit ev = false)
    (buildProgressCallback unrepresentable task updateCount).
Proof.
  intros Hsmall bytesRead contentLength w.
  destruct (buildProgressCallback_run unrepresentable task updateCount
              bytesRead contentLength w)
    as (r & tr & Hrun & [(Hdue & _) | (_ & -> & Hret)]).
  { destruct Hdue as [Hbig _]. lia. }
  rewrite Hrun, (Hret Hsmall). do 2 eexists. split; [reflexivity|].
  by repeat constructor.
Qed.

(** X11. A file under 50 MiB staged through a [TaskLocalFile] whose
    callback is the closure of [buildProgressCallback]: whatever the
    declared size, however the writes are cut and whether they succeed or
    fail, the run returns and not one progress update is sent. *)
Theorem TaskLocalFile_small_file_sends_no_update
    {E : Type} `{!External E} (unrepresentable : float -> Z) (task : Task)
    (updateCount : Z) (filePath : string) (fileSize : Z)
    (w0 w1 : World E) (t0 : TaskLocalFile E) (ws : list (list Byte.byte * Z)) :
  FileSize (TaskFile task) < MiB 50 ->
  NewTaskLocalFile filePath fileSize
    (Some (buildProgressCallback unrepresentable task updateCount)) w0
  = (Ret (inl t0), w1) ->
  exists t w2,
    writeAll t0 ws w1 = (Ret t, w2) /\ edits (since w1 w2) = 0%nat.
Proof.
  intros Hsmall Hnew. apply NewTaskLocalFile_inv in Hnew.
  destruct (writeAll_confined (fun ev => isEdit ev = false)
              (buildProgressCallback unrepresentable task updateCount)
              ws t0 w1)
    as (t & w2 & tr & Hrun & Htr & Hall); try done.
  - by subst t0.
  - by apply buildProgressCallback_small_confined.
  - exists t, w2. split; [done|].
    rewrite (since_app _ _ _ Htr). by apply edits_none.
Qed.

Lemma TaskLocalFile_small_file_sends_no_update_witness :
  let callback :=
    buildProgressCallback (E := Stub) (fun _ => Int64.min_int) task0 5 in
  let t0 := {| file := "cache/photo"; size := 1000; done := 0;
               progressCallback := Some callback; callbackTimes := 100;
               nextCallbackAt := 10; callbackInterval := 10 |} in
  let w1 := {| env := stub0; trace := [EvCreate "cache/photo" None] |} in
  exists t w2,
    writeAll t0 [(zeros 10, 0); (zeros 15, 10)] w1 = (Ret t, w2) /\
    edits (since w1 w2) = 0%nat.
Proof.
  intros callback t0 w1.
  apply (TaskLocalFile_small_file_sends_no_update (fun _ => Int64.min_int)
           task0 5 "cache/photo" 1000 (world0 stub0) w1 t0).
  - vm_compute. reflexivity.
  - reflexivity.
Defined.

(** The same run, looked at: two callbacks, two trace lines, no update. *)
Example TaskLocalFile_small_file_run :
  let callback :=
    buildProgressCallback (E := Stub) (fun _ => Int64.min_int) task0 5 in
  let t0 := {| file := "cache/photo"; size := 1000; done := 0;
               progressCallback := Some callback; callbackTimes := 100;
               nextCallbackAt := 10; callbackInterval := 10 |} in
  let w1 := {| env := stub0; trace := [EvCreate "cache/photo" None] |} in
  let '(_, w2) := writeAll t0 [(zeros 10, 0); (zeros 15, 10)] w1 in
  callbackCalls (since w1 w2) = 2%nat /\ logCalls (since w1 w2) = 2%nat /\
  edits (since w1 w2) = 0%nat.
Proof. by vm_compute. Qed.

Lemma writtenOk_app (tr1 tr2 : list event) :
  writtenOk (tr1 ++ tr2) = writtenOk tr1 + writtenOk tr2.
Proof.
  induction tr1 as [|ev tr1 IH]; [done|].
  destruct ev as [| | | | | | |? ? ? ? [?|]| | |]; simpl; rewrite ?IH; lia.
Qed.

Lemma writtenOk_no_write (tr : list event) :
  Forall (fun ev => isFileWrite ev = false) tr -> writtenOk tr = 0.
Proof.
  induction 1 as [|ev tr Hev _ IH]; [done|].
  destruct ev; simpl in *; try done.
Qed.

Lemma writtenOk_nonneg (tr : list event) :
  Forall countNonneg tr -> 0 <= writtenOk tr.
Proof.
  induction 1 as [|ev tr Hev _ IH]; [done|].
  destruct ev as [| | | | | | |? ? ? ? [?|]| | |]; simpl in *; lia.
Qed.

Section StagingCounter.

Context {E : Type} `{!External E}.

Implicit Types (t : TaskLocalFile E) (w : World E) (p : list Byte.byte).

(** The counter after one [WriteAt], with a callback (if any) that makes
    no positional write of its own. *)
Lemma WriteAt_counter t p off w :
  (forall cb, progressCallback t = Some cb ->
              confined (fun ev => isFileWrite ev = false) cb) ->
  let answer := fst (file_WriteAt (file t) p off (env w)) in
  exists r t1 w1 (evs : list event),
    WriteAt t p off w = (Ret (r, t1), w1) /\
    trace w1 = trace w ++ writeEvent t p off w :: evs /\
    Forall (fun ev => isFileWrite ev = false) evs /\
    progressCallback t1 = progressCallback t /\
    done t1 = match snd answer with
              | Some _ => done t
              | None => Int64.wrap (done t + fst answer)
              end.
Proof.
  intros Hconf answer. subst answer.
  destruct (progressCallback t) as [cb|] eqn:Hcb.
  - destruct (WriteAt_outcome _ t p off w cb Hcb (Hconf cb eq_refl))
      as (t1 & w1 & evs & Hrun & Hevs & Hcase).
    rewrite Hrun.
    destruct (snd (fst (file_WriteAt (file t) p off (env w)))).
    + destruct Hcase as [-> Htr]. do 3 eexists. exists [].
      split; [reflexivity|]. by repeat split.
    + destruct (_ <=? _); destruct Hcase as [-> Htr].
      * do 3 eexists. eexists (EvCallback _ _ :: evs).
        split; [reflexivity|]. split; [exact Htr|].
        split; [by constructor|]. by split.
      * do 3 eexists. exists []. split; [reflexivity|]. by repeat split.
  - destruct (snd (fst (file_WriteAt (file t) p off (env w)))) as [err|] eqn:Hr.
    + rewrite (WriteAt_failed t p off w err Hr).
      do 3 eexists. exists []. split; [reflexivity|]. by repeat split.
    + rewrite (WriteAt_no_callback t p off w Hr Hcb).
      do 3 eexists. exists []. split; [reflexivity|]. by repeat split.
Qed.

(** Over a run, the counter grows by the bytes of the successful writes. *)
Lemma writeAll_counter ws : forall t w,
  (forall cb, progressCallback t = Some cb ->
              confined (fun ev => isFileWrite ev = false) cb) ->
  exists t' w' (tr : list event),
    writeAll t ws w = (Ret t', w') /\ trace w' = trace w ++ tr /\
    (Forall countNonneg tr -> 0 <= done t ->
     done t + writtenOk tr <= Int64.max_int ->
     done t' = done t + writtenOk tr).
Proof.
  induction ws as [|[p off] ws IH]; intros t w Hconf.
  - exists t, w, []. rewrite app_nil_r. split; [done|]. split; [done|].
    simpl. lia.
  - destruct (WriteAt_counter t p off w Hconf)
      as (r & t1 & w1 & evs & Hrun & Htr1 & Hevs & Hcb1 & Hdone1).
    destruct (IH t1 w1) as (t' & w' & tr & Hrun' & Htr' & Hacct).
    { intros cb Hcb. apply Hconf. by rewrite <- Hcb1. }
    exists t', w', (writeEvent t p off w :: evs ++ tr).
    split; [simpl; run; rewrite Hrun; simpl; exact Hrun'|].
    split; [by rewrite Htr', Htr1, <- app_assoc|].
    intros Hnn Hpos Hfit.
    apply Forall_cons in Hnn as [Hev Hnn].
    apply Forall_app in Hnn as [_ Hnn].
    pose proof (writtenOk_nonneg tr Hnn) as Hrest.
    assert (writtenOk (writeEvent t p off w :: evs ++ tr)
            = match snd (fst (file_WriteAt (file t) p off (env w))) with
              | Some _ => 0
              | None => fst (fst (file_WriteAt (file t) p off (env w)))
              end + writtenOk tr) as Hsum.
    { unfold writeEvent. simpl.
      destruct (snd (fst (file_WriteAt (file t) p off (env w))));
        rewrite writtenOk_app, (writtenOk_no_write evs Hevs); lia. }
    rewrite Hsum in Hfit |- *. unfold writeEvent in Hev. simpl in Hev.
    destruct (snd (fst (file_WriteAt (file t) p off (env w)))).
    + rewrite Hacct; [rewrite Hdone1; lia|done|lia|lia].
    + rewrite wrap_in_range in Hdone1
        by (unfold Int64.in_range, Int64.min_int, Int64.max_int in *; lia).
      rewrite Hacct; [rewrite Hdone1; lia|done|lia|lia].
Qed.

End StagingCounter.

(** X12. Over any run of [WriteAt] calls on a freshly opened
    [TaskLocalFile], failed ones included, the counter [done] ends as the
    sum of the bytes of the writes that returned no error: a failed write
    adds nothing, whatever count it reported.  (The callback, if there is
    one, returns and makes no positional write of its own; counts are not
    negative and their sum fits in an [int64].) *)
Theorem WriteAt_counts_successful_writes_only
    {E : Type} `{!External E} (filePath : string) (fileSize : Z)
    (callback : option (Z -> Z -> M E unit)) (w0 w1 : World E)
    (t0 : TaskLocalFile E) (ws : list (list Byte.byte * Z)) :
  (forall cb, callback = Some cb ->
              confined (fun ev => isFileWrite ev = false) cb) ->
  NewTaskLocalFile filePath fileSize callback w0 = (Ret (inl t0), w1) ->
  exists t w2,
    writeAll t0 ws w1 = (Ret t, w2) /\
    (Forall countNonneg (since w1 w2) ->
     writtenOk (since w1 w2) <= Int64.max_int ->
     done t = writtenOk (since w1 w2)).
Proof.
  intros Hconf Hnew. apply NewTaskLocalFile_inv in Hnew.
  destruct (writeAll_counter ws t0 w1) as (t & w2 & tr & Hrun & Htr & Hacct).
  { subst t0. exact Hconf. }
  exists t, w2. split; [done|]. rewrite (since_app _ _ _ Htr).
  intros Hnn Hfit. rewrite Hacct; subst t0; simpl; try done; lia.
Qed.

Lemma WriteAt_counts_successful_writes_only_witness :
  exists t w2,
    writeAll file1000 [(zeros 10, 0); (zeros 5, 10); (zeros 10, 15)] opened1000
    = (Ret t, w2) /\
    done t = 25 /\ writtenOk (since opened1000 w2) = 25.
Proof.
  destruct (WriteAt_counts_successful_writes_only "cache/video" 1000
              (Some silent) (world0 stub0) opened1000 file1000
              [(zeros 10, 0); (zeros 5, 10); (zeros 10, 15)])
    as (t & w2 & Hrun & Hdone).
  - intros cb [= <-] bytesRead contentLength w. exists (env w), [].
    rewrite app_nil_r. by destruct w.
  - reflexivity.
  - exists t, w2. split; [exact Hrun|].
    vm_compute in Hrun. injection Hrun as <- <-.
    split; [|reflexivity]. rewrite Hdone; [reflexivity| |].
    + repeat constructor; vm_compute; discriminate.
    + vm_compute. discriminate.
Defined.

(** On a full disk nothing is counted, however much is offered. *)
Example WriteAt_all_fail :
  let s := {| saves := []; upload := UploadFile []; writeFile := None;
              remove := None; create := None; writeAt := Some boom;
              detect := inl ".bin" |} in
  let w1 := {| env := s; trace := [] |} in
  let '(r, w2) := writeAll file1000 [(zeros 10, 0); (zeros 5, 10)] w1 in
  exists t, r = Ret t /\ done t = 0 /\ nextCallbackAt t = 10 /\
    writeCalls (since w1 w2) = 2%nat /\ callbackCalls (since w1 w2) = 0%nat.
Proof. vm_compute. by eexists. Qed.

(** ** [TaskLocalFile]: how often and with what the callback is called *)

Lemma callbackArgs_app (tr1 tr2 : list event) :
  callbackArgs (tr1 ++ tr2) = callbackArgs tr1 ++ callbackArgs tr2.
Proof.
  induction tr1 as [|ev tr1 IH]; [done|].
  destruct ev; simpl; by rewrite ?IH.
Qed.

Lemma callbackArgs_quiet (evs : list event) :
  Forall (fun ev => isCallback ev = false /\ isFileWrite ev = false) evs ->
  callbackArgs evs = [].
Proof.
  induction 1 as [|ev evs [Hc _] _ IH]; [done|].
  destruct ev; simpl in *; try done.
Qed.

Section StagingReports.

Context {E : Type} `{!External E}.

Variable cb : Z -> Z -> M E unit.
Hypothesis cb_wellBehaved : wellBehaved cb.

Variables S I : Z.
Hypothesis interval_pos : 1 <= I.
Hypothesis no_overflow : S + I <= Int64.max_int.

Implicit Types (t : TaskLocalFile E) (w : World E).

(** From a state with [fired] callbacks behind it: call number [k] of the
    run is handed the declared size and a total that has reached threshold
    number [fired + k + 1] and does not exceed what is written. *)
Lemma writeAll_reports ws : forall t w t' w' (tr : list event) D (fired : nat),
  progressCallback t = Some cb -> size t = S -> callbackInterval t = I ->
  done t = D -> nextCallbackAt t = (Z.of_nat fired + 1) * I ->
  0 <= D -> Z.of_nat fired * I <= D ->
  writeAll t ws w = (Ret t', w') -> trace w' = trace w ++ tr ->
  Forall okWrite tr -> D + written tr <= S ->
  forall (k : nat) bytesRead contentLength,
    callbackArgs tr !! k = Some (bytesRead, contentLength) ->
    contentLength = S /\
    (Z.of_nat fired + Z.of_nat k + 1) * I <= bytesRead <= D + written tr.
Proof.
  induction ws as [|[p off] ws IH];
    intros t w t' w' tr D fired Hcb Hsize Hint Hdone Hnext HD Hfired
           Hrun Htr Hok Hle k bytesRead contentLength Hk.
  - simpl in Hrun. injection Hrun as <- <-.
    assert (tr = []) as ->.
    { apply (app_inv_head (trace w)). by rewrite app_nil_r. }
    by destruct k.
  - destruct (WriteAt_outcome _ t p off w cb Hcb cb_wellBehaved)
      as (t1 & w1 & evs & Hstep & Hquiet & Hcase).
    simpl in Hrun. revert Hrun. run. rewrite Hstep. simpl. intros Hrun.
    set (n := fst (fst (file_WriteAt (file t) p off (env w)))) in *.
    assert (progressCallback t1 = Some cb /\ size t1 = S /\
            callbackInterval t1 = I) as (Hcb1 & Hsize1 & Hint1).
    { destruct (snd (fst (file_WriteAt (file t) p off (env w))));
        [|destruct (_ <=? _)]; by destruct Hcase as [-> _]. }
    destruct (writeAll_returns cb cb_wellBehaved ws t1 w1 Hcb1)
      as (t'' & w'' & tr2 & Hrun2 & Htr2).
    rewrite Hrun2 in Hrun. injection Hrun as -> ->.
    destruct (snd (fst (file_WriteAt (file t) p off (env w)))) as [err|] eqn:Hr.
    { destruct Hcase as [_ Htr1].
      assert (tr = writeEvent t p off w :: tr2) as ->.
      { apply (app_inv_head (trace w)).
        by rewrite <- Htr, Htr2, Htr1, <- app_assoc. }
      apply Forall_cons in Hok as [Hev _].
      unfold writeEvent in Hev. simpl in Hev. rewrite Hr in Hev.
      by destruct Hev. }
    rewrite Hdone in Hcase.
    destruct (Z.leb_spec (nextCallbackAt t) (Int64.wrap (D + n))) as [Hge|Hlt];
      destruct Hcase as [Ht1 Htr1].
    + assert (tr = writeEvent t p off w
                   :: EvCallback (Int64.wrap (D + n)) (size t) :: evs ++ tr2)
        as ->.
      { apply (app_inv_head (trace w)).
        by rewrite <- Htr, Htr2, Htr1, <- app_assoc. }
      apply Forall_cons in Hok as [Hev Hok].
      apply Forall_cons in Hok as [_ Hok].
      apply Forall_app in Hok as [_ Hok2].
      unfold writeEvent in Hev, Hle, Hk. simpl in Hev, Hle, Hk.
      fold n in Hev, Hle, Hk. destruct Hev as [_ Hn].
      destruct (quiet_records evs Hquiet) as (_ & _ & Hn0 & _).
      rewrite written_app, Hn0 in Hle.
      rewrite callbackArgs_app, (callbackArgs_quiet evs Hquiet) in Hk.
      simpl in Hk.
      pose proof (written_nonneg tr2 Hok2) as Hpos2.
      assert (Int64.wrap (D + n) = D + n) as Hwrap.
      { apply wrap_in_range.
        unfold Int64.in_range, Int64.min_int, Int64.max_int in *. lia. }
      rewrite Hwrap in Hge, Hk, Ht1. rewrite Hnext in Hge.
      assert (written (writeEvent t p off w
                       :: EvCallback (Int64.wrap (D + n)) (size t) :: evs ++ tr2)
              = n + written tr2) as ->.
      { unfold writeEvent. simpl. fold n. rewrite written_app, Hn0. lia. }
      destruct k as [|k]; simpl in Hk.
      * injection Hk as <- <-. split; [done|]. lia.
      * assert (done t1 = D + n) as Hd1 by (by subst t1).
        assert (nextCallbackAt t1 = (Z.of_nat (Datatypes.S fired) + 1) * I)
          as Hn1.
        { subst t1. simpl. rewrite Hnext, Hint.
          rewrite wrap_in_range
            by (unfold Int64.in_range, Int64.min_int, Int64.max_int in *; lia).
          lia. }
        destruct (IH t1 w1 t' w' tr2 (D + n) (Datatypes.S fired)
                    Hcb1 Hsize1 Hint1 Hd1 Hn1 ltac:(lia) ltac:(lia)
                    Hrun2 Htr2 Hok2 ltac:(lia) k bytesRead contentLength Hk)
          as [Hs Hb].
        split; [done|]. lia.
    + assert (tr = writeEvent t p off w :: tr2) as ->.
      { apply (app_inv_head (trace w)).
        by rewrite <- Htr, Htr2, Htr1, <- app_assoc. }
      apply Forall_cons in Hok as [Hev Hok2].
      unfold writeEvent in Hev, Hle, Hk. simpl in Hev, Hle, Hk.
      fold n in Hev, Hle, Hk. destruct Hev as [_ Hn].
      pose proof (written_nonneg tr2 Hok2) as Hpos2.
      assert (Int64.wrap (D + n) = D + n) as Hwrap.
      { apply wrap_in_range.
        unfold Int64.in_range, Int64.min_int, Int64.max_int in *. lia. }
      rewrite Hwrap in Hlt, Ht1. rewrite Hnext in Hlt.
      assert (written (writeEvent t p off w :: tr2) = n + written tr2) as ->.
      { unfold writeEvent. simpl. by fold n. }
      assert (done t1 = D + n) as Hd1 by (by subst t1).
      assert (nextCallbackAt t1 = (Z.of_nat fired + 1) * I) as Hn1
        by (by subst t1).
      destruct (IH t1 w1 t' w' tr2 (D + n) fired
                  Hcb1 Hsize1 Hint1 Hd1 Hn1 ltac:(lia) ltac:(lia)
                  Hrun2 Htr2 Hok2 ltac:(lia) k bytesRead contentLength Hk)
        as [Hs Hb].
      split; [done|]. lia.
Qed.

End StagingReports.

(** X13. In a run of successful writes totalling at most the declared
    size [S], the callback is called at most 199 times, and at most 100
    times when [S] is below 100, a multiple of 100, or at least 10000: the
    interval [max (S / 100) 1] rounds down, so a size such as 199 allows
    199 calls.  The field [callbackTimes] (always 100) is not read. *)
Theorem WriteAt_callbacks_bounded
    {E : Type} `{!External E} (filePath : string) (S : Z)
    (cb : Z -> Z -> M E unit) (w0 w1 : World E) (t0 : TaskLocalFile E)
    (ws : list (list Byte.byte * Z)) :
  wellBehaved cb ->
  0 <= S -> S + Z.max (S ÷ 100) 1 <= Int64.max_int ->
  NewTaskLocalFile filePath S (Some cb) w0 = (Ret (inl t0), w1) ->
  exists t w2,
    writeAll t0 ws w1 = (Ret t, w2) /\
    (Forall okWrite (since w1 w2) -> written (since w1 w2) <= S ->
     Z.of_nat (callbackCalls (since w1 w2)) <= 199 /\
     (S < 100 \/ Z.rem S 100 = 0 \/ 10000 <= S ->
      Z.of_nat (callbackCalls (since w1 w2)) <= 100)).
Proof.
  intros Hwb HS Hfit Hnew. apply NewTaskLocalFile_inv in Hnew.
  assert ((if S ÷ 100 =? 0 then 1 else S ÷ 100) = Z.max (S ÷ 100) 1) as Hint.
  { destruct (Z.eqb_spec (S ÷ 100) 0); Z.quot_rem_to_equations; lia. }
  rewrite Hint in Hnew. set (interval := Z.max (S ÷ 100) 1) in *.
  assert (1 <= interval) as Hpos by (unfold interval; lia).
  destruct (writeAll_returns cb Hwb ws t0 w1) as (t & w2 & tr & Hrun & Htr);
    [by subst t0|].
  exists t, w2. split; [done|]. rewrite (since_app _ _ _ Htr).
  intros Hok Hle.
  destruct (writeAll_progress cb Hwb S interval Hpos Hfit ws
              t0 w1 t w2 tr 0 O)
    as (_ & Hb & _); try done; try (by subst t0); try lia.
  { subst t0. simpl. lia. }
  set (calls := Z.of_nat (callbackCalls tr)) in *.
  assert (0 <= calls) by (unfold calls; lia).
  assert (calls * interval <= S) as Hbound by lia.
  unfold interval in Hbound. clear Hb Hint Hfit Hnew Hpos.
  split; [|intros Hround]; Z.quot_rem_to_equations; nia.
Qed.

Lemma WriteAt_callbacks_bounded_witness :
  exists t w2,
    writeAll file1000 [(zeros 10, 0); (zeros 5, 10); (zeros 10, 15)] opened1000
    = (Ret t, w2) /\
    Z.of_nat (callbackCalls (since opened1000 w2)) <= 100.
Proof.
  destruct (WriteAt_callbacks_bounded "cache/video" 1000 silent
              (world0 stub0) opened1000 file1000
              [(zeros 10, 0); (zeros 5, 10); (zeros 10, 15)])
    as (t & w2 & Hrun & Hbound).
  - intros bytesRead contentLength w. exists (env w), [].
    rewrite app_nil_r. by destruct w.
  - lia.
  - vm_compute. discriminate.
  - reflexivity.
  - exists t, w2. split; [exact Hrun|].
    vm_compute in Hrun. injection Hrun as <- <-.
    destruct Hbound as [_ Hhundred].
    + repeat constructor; vm_compute; discriminate.
    + vm_compute. discriminate.
    + apply Hhundred. right. left. reflexivity.
Defined.

(** A declared size of 199, written one byte at a time: 199 calls. *)
Example WriteAt_199_callbacks :
  let t0 := {| file := "cache/video"; size := 199; done := 0;
               progressCallback := Some silent; callbackTimes := 100;
               nextCallbackAt := 1; callbackInterval := 1 |} in
  let '(r, w2) := writeAll t0 (replicate 199 (zeros 1, 0)) opened1000 in
  exists t, r = Ret t /\ done t = 199 /\
    callbackCalls (since opened1000 w2) = 199%nat.
Proof. vm_compute. by eexists. Qed.

(** X14. In a run of successful writes totalling [B], at most the declared
    size [S], every call of the callback is handed [S] as content length;
    call number [k] (from 1) is handed a byte count that has reached
    [k * interval] and is no more than [B]. *)
Theorem WriteAt_callback_reports
    {E : Type} `{!External E} (filePath : string) (S : Z)
    (cb : Z -> Z -> M E unit) (w0 w1 : World E) (t0 : TaskLocalFile E)
    (ws : list (list Byte.byte * Z)) :
  wellBehaved cb ->
  0 <= S -> S + Z.max (S ÷ 100) 1 <= Int64.max_int ->
  NewTaskLocalFile filePath S (Some cb) w0 = (Ret (inl t0), w1) ->
  exists t w2,
    writeAll t0 ws w1 = (Ret t, w2) /\
    (Forall okWrite (since w1 w2) -> written (since w1 w2) <= S ->
     forall (k : nat) bytesRead contentLength,
       callbackArgs (since w1 w2) !! k = Some (bytesRead, contentLength) ->
       contentLength = S /\
       (Z.of_nat k + 1) * Z.max (S ÷ 100) 1 <= bytesRead
         <= written (since w1 w2)).
Proof.
  intros Hwb HS Hfit Hnew. apply NewTaskLocalFile_inv in Hnew.
  assert ((if S ÷ 100 =? 0 then 1 else S ÷ 100) = Z.max (S ÷ 100) 1) as Hint.
  { destruct (Z.eqb_spec (S ÷ 100) 0); Z.quot_rem_to_equations; lia. }
  rewrite Hint in Hnew. set (interval := Z.max (S ÷ 100) 1) in *.
  assert (1 <= interval) as Hpos by (unfold interval; lia).
  destruct (writeAll_returns cb Hwb ws t0 w1) as (t & w2 & tr & Hrun & Htr);
    [by subst t0|].
  exists t, w2. split; [done|]. rewrite (since_app _ _ _ Htr).
  intros Hok Hle k bytesRead contentLength Hk.
  assert (nextCallbackAt t0 = (Z.of_nat 0 + 1) * interval) as Hnext
    by (subst t0; simpl; lia).
  destruct (writeAll_reports cb Hwb S interval Hpos Hfit ws
              t0 w1 t w2 tr 0 O
              ltac:(by subst t0) ltac:(by subst t0) ltac:(by subst t0)
              ltac:(by subst t0) Hnext ltac:(lia) ltac:(lia)
              Hrun Htr Hok ltac:(lia) k bytesRead contentLength Hk)
    as [Hs Hb].
  split; [done|]. lia.
Qed.

Lemma WriteAt_callback_reports_witness :
  exists t w2,
    writeAll file1000 [(zeros 10, 0); (zeros 5, 10); (zeros 10, 15)] opened1000
    = (Ret t, w2) /\
    callbackArgs (since opened1000 w2) = [(10, 1000); (25, 1000)] /\
    (1 + 1) * Z.max (1000 ÷ 100) 1 <= 25 <= written (since opened1000 w2).
Proof.
  destruct (WriteAt_callback_reports "cache/video" 1000 silent
              (world0 stub0) opened1000 file1000
              [(zeros 10, 0); (zeros 5, 10); (zeros 10, 15)])
    as (t & w2 & Hrun & Hreports).
  - intros bytesRead contentLength w. exists (env w), [].
    rewrite app_nil_r. by destruct w.
  - lia.
  - vm_compute. discriminate.
  - reflexivity.
  - exists t, w2. split; [exact Hrun|].
    vm_compute in Hrun. injection Hrun as <- <-.
    split; [reflexivity|].
    refine (proj2 (Hreports _ _ 1%nat 25 1000 _)).
    + repeat constructor; vm_compute; discriminate.
    + vm_compute. discriminate.
    + reflexivity.
Defined.

(** ** [fixTaskFileExt], applied twice *)

Lemma list_ascii_of_string_append (s1 s2 : string) :
  String.list_ascii_of_string (s1 +:+ s2)
  = String.list_ascii_of_string s1 ++ String.list_ascii_of_string s2.
Proof. induction s1 as [|c s1 IH]; [done|]. simpl. by rewrite IH. Qed.

(** Once the walk back has met its ['.'], what lies further to the left
    does not matter. *)
Lemma extFrom_app (before rest : list ascii) : forall after,
  extFrom before after <> "" ->
  extFrom (before ++ rest) after = extFrom before after.
Proof.
  induction before as [|c before IH]; intros after Hext; [done|].
  simpl in *. destruct (Ascii.eqb c "/"); [done|].
  destruct (Ascii.eqb c "."); [done|]. by apply IH.
Qed.

(** An extension at the end of a name is the extension of the name. *)
Lemma path_Ext_append (name extension : string) :
  path_Ext extension <> "" ->
  path_Ext (name +:+ extension) = path_Ext extension.
Proof.
  intros Hext. unfold path_Ext in *.
  rewrite list_ascii_of_string_append, rev_app_distr.
  by apply extFrom_app.
Qed.

(** X15. When the name has no extension and the sniffer answers with one
    (a string whose own [path.Ext] is not empty, such as ".jpg"),
    [fixTaskFileExt] gives the task a name with that extension, and any
    later call on the resulting task changes nothing and does not sniff
    again. *)
Theorem fixTaskFileExt_twice
    {E : Type} `{!External E} (task : Task) (localFilePath : string)
    (w : World E) (extension : string) :
  path_Ext (Task_FileName task) = "" ->
  fst (mimetype_DetectFile localFilePath (env w)) = inl extension ->
  path_Ext extension <> "" ->
  exists task1 w1,
    fixTaskFileExt task localFilePath w = (Ret task1, w1) /\
    path_Ext (Task_FileName task1) = path_Ext extension /\
    forall localFilePath' (w' : World E),
      fixTaskFileExt task1 localFilePath' w' = (Ret task1, w').
Proof.
  intros Hnone Hdetect Hext. unfold fixTaskFileExt at 1.
  rewrite Hnone. simpl. unfold callDetectFile. run.
  destruct (mimetype_DetectFile localFilePath (env w)) as [answer e'].
  simpl in Hdetect. subst answer. simpl.
  do 2 eexists. split; [reflexivity|].
  assert (path_Ext (Task_FileName task +:+ extension) = path_Ext extension)
    as Hnew by (by apply path_Ext_append).
  split; [exact Hnew|].
  intros localFilePath' w'. unfold fixTaskFileExt, Task_FileName. simpl.
  unfold Task_FileName in Hnew. rewrite Hnew.
  destruct (String.eqb_spec (path_Ext extension) ""); [done|]. by run.
Qed.

Lemma fixTaskFileExt_twice_witness :
  exists task1 w1,
    fixTaskFileExt task0 "cache/photo" (world0 stub0) = (Ret task1, w1) /\
    path_Ext (Task_FileName task1) = path_Ext ".bin" /\
    forall localFilePath' (w' : World Stub),
      fixTaskFileExt task1 localFilePath' w' = (Ret task1, w').
Proof.
  apply (fixTaskFileExt_twice task0 "cache/photo" (world0 stub0) ".bin").
  - reflexivity.
  - reflexivity.
  - vm_compute. discriminate.
Defined.

(** With an empty answer from the sniffer the name stays without
    extension, and the next call sniffs again. *)
Example fixTaskFileExt_empty_extension :
  let s := {| saves := []; upload := UploadFile []; writeFile := None;
              remove := None; create := None; writeAt := None;
              detect := inl "" |} in
  let '(r, w1) := fixTaskFileExt task0 "cache/photo" (world0 s) in
  r = Ret task0 /\
  trace (snd (fixTaskFileExt task0 "cache/photo" w1))
  = [EvDetectFile "cache/photo" (inl ""); EvDetectFile "cache/photo" (inl "")].
Proof. by vm_compute. Qed.
